(** * The Item CRUD service: repository (app/crud.py) and HTTP layer (app/main.py)

    The Python code is embedded in a state-and-exception monad over a
    [World] that holds the SQLite table, the objects the current session
    tracks, the session's pending writes and the log.  Every function of
    app/crud.py and every handler of app/main.py is translated statement
    by statement; the SQLModel session is a small set of primitives
    ([session_get], [session_add], [session_commit], ...). *)

From Stdlib Require Import ZArith Lia.
From stdpp Require Import base strings gmap list sorting pretty.

Local Open Scope string_scope.
Local Open Scope list_scope.
Local Open Scope Z_scope.

(** ** Python values and exceptions *)

(** The values an attribute of an object or an entry of a JSON payload can
    hold.  [PObj] stands for any other Python object (float, list, dict),
    identified by what [str()] prints for it. *)
Inductive pyval : Type :=
  | PNone
  | PBool (b : bool)
  | PInt (z : Z)
  | PStr (s : string)
  | PObj (repr : string).

Global Instance pyval_eq_dec : EqDecision pyval.
Proof. solve_decision. Defined.

(** [str(v)], as an f-string prints a value. *)
Definition py_str (v : pyval) : string :=
  match v with
  | PNone => "None"
  | PBool true => "True"
  | PBool false => "False"
  | PInt z => pretty z
  | PStr s => s
  | PObj repr => repr
  end.

(** The exceptions that travel through the two layers.  [IntegrityError]
    is a subclass of [SQLAlchemyError]; [ItemCRUDError] is the class
    declared at the top of app/crud.py; [OtherException] is any other
    subclass of [Exception]. *)
Inductive exc : Type :=
  | IntegrityError (msg : string)
  | SQLAlchemyError (msg : string)
  | ItemCRUDError (msg : string)
  | HTTPException (status_code : Z) (detail : string)
  | OtherException (msg : string).

Global Instance exc_eq_dec : EqDecision exc.
Proof. solve_decision. Defined.

Inductive exc_class : Type :=
  | CIntegrityError | CSQLAlchemyError | CItemCRUDError | CHTTPException
  | CException.

(** What an [except C] clause tests. *)
Definition isinstance (e : exc) (c : exc_class) : bool :=
  match c, e with
  | CException, _ => true
  | CIntegrityError, IntegrityError _ => true
  | CSQLAlchemyError, (IntegrityError _ | SQLAlchemyError _) => true
  | CItemCRUDError, ItemCRUDError _ => true
  | CHTTPException, HTTPException _ _ => true
  | _, _ => false
  end.

(** [str(e)]. *)
Definition str (e : exc) : string :=
  match e with
  | IntegrityError msg | SQLAlchemyError msg | ItemCRUDError msg
  | OtherException msg => msg
  | HTTPException status_code detail => pretty status_code +:+ ": " +:+ detail
  end.

Definition HTTP_200_OK : Z := 200.
Definition HTTP_201_CREATED : Z := 201.
Definition HTTP_204_NO_CONTENT : Z := 204.
Definition HTTP_400_BAD_REQUEST : Z := 400.
Definition HTTP_404_NOT_FOUND : Z := 404.
Definition HTTP_500_INTERNAL_SERVER_ERROR : Z := 500.

Inductive outcome (A : Type) : Type :=
  | Return (a : A)
  | Raise (e : exc).
Arguments Return {A} a.
Arguments Raise {A} e.

(** ** The Item model *)

(** Modelled from the spec: app/models.py is not part of the sources.  The
    spec gives Item an integer primary key [id] that the storage generates
    and a required string [name].  An object carries, besides its two
    attributes, the primary key under which the session knows it
    ([sa_key]); a new object that was never flushed has none.  After a
    commit the session holds the object [expired]: its attributes are read
    again from the row the next time one is asked for. *)
Record Item : Type := mkItem {
  id : pyval;
  name : pyval;
  sa_key : option Z;
  expired : bool
}.

Global Instance Item_eq_dec : EqDecision Item.
Proof. solve_decision. Defined.

(** A new object, as the request body or a test builds it. *)
Definition new_item (id0 name0 : pyval) : Item := mkItem id0 name0 None false.

(** The object the session builds from the row [k ↦ n]. *)
Definition loaded (k : Z) (n : string) : Item :=
  mkItem (PInt k) (PStr n) (Some k) false.

(** The fields of the model.  An object has other attributes too (what
    every Python object and the model base class bring: [__class__],
    [metadata], methods); which names those are is the engine's
    [has_other_attr], below. *)
Definition item_fields : list string := ["id"; "name"].

Definition item_hasattr (field : string) : bool :=
  bool_decide (field ∈ item_fields).

Definition item_getattr (it : Item) (field : string) : option pyval :=
  if decide (field = "id") then Some (id it)
  else if decide (field = "name") then Some (name it)
  else None.

Definition item_setattr (it : Item) (field : string) (value : pyval) : Item :=
  if decide (field = "id") then mkItem value (name it) (sa_key it) (expired it)
  else if decide (field = "name") then mkItem (id it) value (sa_key it) (expired it)
  else it.

(** ** The world: database, session, log *)

(** The calls on the session that reach the storage. *)
Inductive Prim : Type :=
  | PGet | PAdd | PDelete | PCommit | PRefresh | PExec | PRollback.

Global Instance Prim_eq_dec : EqDecision Prim.
Proof. solve_decision. Defined.

(** What a storage call can raise: an [IntegrityError], another
    [SQLAlchemyError], or an exception of some other class (from the driver,
    say).  It raises neither [ItemCRUDError] nor [HTTPException], which
    belong to the two layers above it. *)
Inductive storage_error : Type :=
  | SaIntegrityError (msg : string)
  | SaError (msg : string)
  | PyError (msg : string).

Global Instance storage_error_eq_dec : EqDecision storage_error.
Proof. solve_decision. Defined.

Definition raised (e : storage_error) : exc :=
  match e with
  | SaIntegrityError msg => IntegrityError msg
  | SaError msg => SQLAlchemyError msg
  | PyError msg => OtherException msg
  end.

(** What the storage refuses by itself. *)
Inductive Incident : Type :=
  | UniqueViolation
  | NotNullViolation
  | StaleRow
  | NotPersistent
  | RowGone.

(** What the code takes from outside and the sources do not decide.
    [fails p] is the exception the call [p] raises in this request
    (connectivity and the like), if any, and [load_fails] the one the
    reload of an expired object raises.  [adapt_id] and [adapt_name] say
    what the driver makes of a value whose Python type is not the column's
    (the stored value, or the error it raises).  [message] is the text of
    the exception the storage raises for an incident; it can depend on the
    table and on the object the statement was issued for (SQLAlchemy puts
    the statement and its parameters in it).  [pick_key] is the
    key SQLite draws when the largest key of the table is the largest there
    is, and [scan_rank] the order in which a SELECT without ORDER BY
    delivers the rows of a table (by increasing rank).  [has_other_attr]
    tells the names, besides the fields, that are attributes of an Item
    object, and [setattr_other] what assigning a value to one of them does:
    it raises, with the text given, or it is accepted and leaves the fields
    as they are. *)
Record Engine : Type := mkEngine {
  fails : Prim → option storage_error;
  load_fails : option storage_error;
  adapt_id : pyval → storage_error + Z;
  adapt_name : pyval → storage_error + string;
  message : Incident → gmap Z string → Item → string;
  pick_key : gmap Z string → Z;
  scan_rank : gmap Z string → Z → Z;
  has_other_attr : string → bool;
  setattr_other : string → pyval → option string
}.

Definition adapted {A} (x : storage_error + A) : outcome A :=
  match x with
  | inl e => Raise (raised e)
  | inr a => Return a
  end.

Definition ref : Type := nat.

Inductive Write : Type :=
  | WAdd (r : ref)
  | WDelete (r : ref).

Inductive Level : Type := INFO | WARNING | ERROR.

(** [db] is the item table, primary key to name.  [objects] are the Item
    objects alive in the request, addressed by position; [pending] is the
    session's unit of work. *)
Record World : Type := mkWorld {
  engine : Engine;
  db : gmap Z string;
  objects : list Item;
  pending : list Write;
  log : list (Level * string)
}.

Definition set_objects (os : list Item) (w : World) : World :=
  mkWorld (engine w) (db w) os (pending w) (log w).
Definition set_pending (ws : list Write) (w : World) : World :=
  mkWorld (engine w) (db w) (objects w) ws (log w).
Definition set_log (l : list (Level * string)) (w : World) : World :=
  mkWorld (engine w) (db w) (objects w) (pending w) l.

(** ** The monad *)

Definition M (A : Type) : Type := World → outcome A * World.

Global Instance M_ret : MRet M := λ A a w, (Return a, w).
Global Instance M_bind : MBind M := λ A B f m w,
  match m w with
  | (Return a, w') => f a w'
  | (Raise e, w') => (Raise e, w')
  end.

Definition raise {A} (e : exc) : M A := λ w, (Raise e, w).

(** [try: body except e: handler e]. *)
Definition try_except {A} (body : M A) (handler : exc → M A) : M A := λ w,
  match body w with
  | (Return a, w') => (Return a, w')
  | (Raise e, w') => handler e w'
  end.

Fixpoint for_each {A} (l : list A) (body : A → M unit) : M unit :=
  match l with
  | [] => mret tt
  | x :: l' => body x ;; for_each l' body
  end.

(** *** Objects *)

Definition alloc (it : Item) : M ref := λ w,
  (Return (length (objects w)), set_objects (objects w ++ [it]) w).

Definition deref (r : ref) : M Item := λ w,
  match objects w !! r with
  | Some it => (Return it, w)
  | None => (Raise (OtherException "dangling object"), w)
  end.

(** The reload of an expired object before one of its attributes is read:
    a SELECT of its row. *)
Definition load (r : ref) : M Item :=
  it ← deref r;
  if expired it then
    ((λ w,
      match load_fails (engine w) with
      | Some e => (Raise (raised e), w)
      | None =>
          match sa_key it with
          | None =>
              (Raise (SQLAlchemyError (message (engine w) NotPersistent (db w) it)), w)
          | Some k =>
              match db w !! k with
              | None =>
                  (Raise (SQLAlchemyError (message (engine w) RowGone (db w) it)), w)
              | Some n =>
                  (Return (loaded k n),
                   set_objects (<[r := loaded k n]> (objects w)) w)
              end
          end
      end) : M Item)
  else mret it.

(** [item.field], as the code reads [item.name] and [item.id]. *)
Definition getattr (r : ref) (field : string) : M pyval :=
  it ← load r;
  match item_getattr it field with
  | Some v => mret v
  | None => raise (OtherException ("'Item' object has no attribute '" +:+ field +:+ "'"))
  end.

(** [hasattr(item, field)]: the attribute is read and the value dropped.
    It is true for a field, which is read like [item.field], and for any
    other attribute of the object. *)
Definition hasattr (r : ref) (field : string) : M bool :=
  if item_hasattr field then
    _ ← load r; mret true
  else
    _ ← deref r;
    ((λ w, (Return (has_other_attr (engine w) field), w)) : M bool).

(** [setattr(item, field, value)]: a field takes the value; for an
    attribute that is not a field the assignment raises or leaves the fields
    alone, as the engine says. *)
Definition setattr (r : ref) (field : string) (value : pyval) : M unit :=
  it ← deref r;
  if item_hasattr field then
    ((λ w, (Return tt,
            set_objects (<[r := item_setattr it field value]> (objects w)) w))
       : M unit)
  else
    ((λ w, match setattr_other (engine w) field value with
           | Some msg => (Raise (OtherException msg), w)
           | None => (Return tt, w)
           end) : M unit).

(** *** app/core/logger.py *)

Definition logger_log (lvl : Level) (msg : string) : M unit := λ w,
  (Return tt, set_log (log w ++ [(lvl, msg)]) w).
Definition logger_info := logger_log INFO.
Definition logger_warning := logger_log WARNING.
Definition logger_error := logger_log ERROR.

(** ** The session (sqlmodel.Session over the SQLite engine of app/database.py) *)

(** A storage call raises what the engine says it raises in this request. *)
Definition fault (p : Prim) : M unit := λ w,
  match fails (engine w) p with
  | Some e => (Raise (raised e), w)
  | None => (Return tt, w)
  end.

(** The largest key SQLite has. *)
Definition MAX_KEY : Z := 2 ^ 63 - 1.

(** The key SQLite gives a row inserted without one: 1 in an empty table,
    otherwise one more than the largest key in use; when that one is the
    largest key there is, a key it draws among those not in use (the
    engine's [pick_key]; when it finds none the commit raises, a failure of
    the call like any other).  A draw that is in use is replaced by a key
    that is not, so that the key is unused in every case. *)
Definition next_id (E : Engine) (t : gmap Z string) : Z :=
  match elements (dom t) with
  | [] => 1
  | k :: ks =>
      let largest := foldr Z.max k ks in
      if decide (largest < MAX_KEY) then 1 + largest
      else if decide (t !! pick_key E t = None) then pick_key E t
      else fresh (dom t)
  end.

(** Binding a Python value to a column.  [id] is INTEGER PRIMARY KEY,
    [name] is a NOT NULL string column. *)
Definition bind_id (E : Engine) (v : pyval) : outcome Z :=
  match v with
  | PInt z => Return z
  | _ => adapted (adapt_id E v)
  end.

Definition bind_name (E : Engine) (t : gmap Z string) (it : Item)
    : outcome string :=
  match name it with
  | PStr s => Return s
  | PNone => Raise (IntegrityError (message E NotNullViolation t it))
  | v => adapted (adapt_name E v)
  end.

(** The value a column stores for a Python value, when the binding goes
    through. *)
Definition stored_id (E : Engine) (v : pyval) : option Z :=
  match bind_id E v with
  | Return k => Some k
  | Raise _ => None
  end.

Definition stored_name (E : Engine) (v : pyval) : option string :=
  match bind_name E ∅ (mkItem PNone v None false) with
  | Return n => Some n
  | Raise _ => None
  end.

(** The exception of a write that would give two rows one key. *)
Definition unique_violation (E : Engine) (t : gmap Z string) (it : Item) : exc :=
  IntegrityError (message E UniqueViolation t it).

(** The flush of one pending write against the table [t] and the objects
    [os]: INSERT for a new object, UPDATE for an object the session loaded
    (the row moves when its [id] attribute was reassigned), DELETE.  The
    object of an INSERT or an UPDATE is expired by the commit; the object
    of a DELETE leaves the session with the values it has. *)
Definition flush_write (E : Engine) (t : gmap Z string) (os : list Item)
    (wr : Write) : outcome (gmap Z string * list Item) :=
  match wr with
  | WAdd r =>
      match os !! r with
      | None => Raise (OtherException "dangling object")
      | Some it =>
          match bind_name E t it with
          | Raise e => Raise e
          | Return n =>
              match sa_key it with
              | None =>
                  match (match id it with
                         | PNone => Return (next_id E t)
                         | v => bind_id E v
                         end) with
                  | Raise e => Raise e
                  | Return k =>
                      match t !! k with
                      | Some _ => Raise (unique_violation E t it)
                      | None =>
                          Return (<[k := n]> t,
                                  <[r := mkItem (PInt k) (name it) (Some k) true]> os)
                      end
                  end
              | Some key =>
                  match bind_id E (id it) with
                  | Raise e => Raise e
                  | Return k =>
                      match t !! key with
                      | None => Raise (SQLAlchemyError (message E StaleRow t it))
                      | Some _ =>
                          if decide (k = key) then
                            Return (<[k := n]> t,
                                    <[r := mkItem (id it) (name it) (Some k) true]> os)
                          else
                            match t !! k with
                            | Some _ => Raise (unique_violation E t it)
                            | None =>
                                Return (<[k := n]> (delete key t),
                                        <[r := mkItem (id it) (name it) (Some k) true]> os)
                            end
                      end
                  end
              end
          end
      end
  | WDelete r =>
      match os !! r with
      | None => Raise (OtherException "dangling object")
      | Some it =>
          match sa_key it with
          | None => Raise (SQLAlchemyError (message E NotPersistent t it))
          | Some key =>
              Return (delete key t, <[r := mkItem (id it) (name it) None false]> os)
          end
      end
  end.

Fixpoint flush (E : Engine) (ws : list Write) (t : gmap Z string)
    (os : list Item) : outcome (gmap Z string * list Item) :=
  match ws with
  | [] => Return (t, os)
  | wr :: ws' =>
      match flush_write E t os wr with
      | Raise e => Raise e
      | Return (t', os') => flush E ws' t' os'
      end
  end.

(** [session.get(Item, item_id)].  The repository calls it first thing in a
    session, when nothing is pending: the row is read from the table. *)
Definition session_get (item_id : Z) : M (option ref) :=
  fault PGet ;;
  ((λ w, match db w !! item_id with
        | Some n => (r ← alloc (loaded item_id n); mret (Some r)) w
        | None => (Return None, w)
        end) : M (option ref)).

(** [session.add(item)]. *)
Definition session_add (item : ref) : M unit :=
  fault PAdd ;;
  _ ← deref item;
  ((λ w, (Return tt, set_pending (pending w ++ [WAdd item]) w)) : M unit).

(** [session.delete(item)]. *)
Definition session_delete (item : ref) : M unit :=
  fault PDelete ;;
  it ← deref item;
  match sa_key it with
  | None =>
      ((λ w, (Raise (SQLAlchemyError (message (engine w) NotPersistent (db w) it)), w))
         : M unit)
  | Some _ => ((λ w, (Return tt, set_pending (pending w ++ [WDelete item]) w)) : M unit)
  end.

(** [session.commit()]: the pending writes are flushed and committed as
    one transaction; when the flush fails the table is left as it was and
    the writes stay pending until [session.rollback()]. *)
Definition session_commit : M unit :=
  fault PCommit ;;
  ((λ w, match flush (engine w) (pending w) (db w) (objects w) with
        | Raise e => (Raise e, w)
        | Return (t, os) => (Return tt, mkWorld (engine w) t os [] (log w))
        end) : M unit).

(** [session.refresh(item)]: the attributes are read again from the row. *)
Definition session_refresh (item : ref) : M unit :=
  fault PRefresh ;;
  it ← deref item;
  match sa_key it with
  | None =>
      ((λ w, (Raise (SQLAlchemyError (message (engine w) NotPersistent (db w) it)), w))
         : M unit)
  | Some k =>
      ((λ w, match db w !! k with
             | Some n => (Return tt, set_objects (<[item := loaded k n]> (objects w)) w)
             | None =>
                 (Raise (SQLAlchemyError (message (engine w) RowGone (db w) it)), w)
             end) : M unit)
  end.

(** [session.rollback()]: the pending writes are dropped.  The objects are
    left as they are: the code reads none after a rollback but the item of
    [create_item], which either was never made persistent (a rollback lets
    go of such an object with the values it has) or is expired by the
    commit already. *)
Definition session_rollback : M unit :=
  fault PRollback ;;
  ((λ w, (Return tt, set_pending [] w)) : M unit).

(** The rows of the table as a SELECT without ORDER BY delivers them: all
    of them, in the order the engine chooses, by increasing [scan_rank]. *)
Definition scan_before (E : Engine) (t : gmap Z string) (a b : Z) : Prop :=
  scan_rank E t a ≤ scan_rank E t b.

Global Instance scan_before_dec E t : RelDecision (scan_before E t).
Proof. intros a b. unfold scan_before. apply _. Defined.

Definition scan_keys (E : Engine) (t : gmap Z string) : list Z :=
  merge_sort (scan_before E t) (elements (dom t)).

Definition table_scan (E : Engine) (t : gmap Z string) : list Item :=
  omap (λ k, loaded k <$> t !! k) (scan_keys E t).

(** SQLite's order: by primary key. *)
Definition by_key : gmap Z string → Z → Z := λ _ k, k.

(** [session.exec(select(Item)).all()]. *)
Definition session_exec_select_all : M (list ref) :=
  fault PExec ;;
  ((λ w, let rows := table_scan (engine w) (db w) in
         (Return (seq (length (objects w)) (length rows)),
          set_objects (objects w ++ rows) w)) : M (list ref)).

(** app/database.py, [get_session]: a new session on the engine; it tracks
    no object and has nothing pending. *)
Definition get_session (w : World) : World :=
  mkWorld (engine w) (db w) [] [] (log w).

(** ** app/crud.py *)

Module Crud.

Definition create_item (item : ref) : M ref :=
  try_except
    (item_name ← getattr item "name";
     logger_info ("Creando ítem: " +:+ py_str item_name) ;;
     session_add item ;;
     session_commit ;;
     session_refresh item ;;
     item_id ← getattr item "id";
     logger_info ("Ítem creado exitosamente con ID: " +:+ py_str item_id) ;;
     mret item)
    (λ e,
     if isinstance e CIntegrityError then
       session_rollback ;;
       item_name ← getattr item "name";
       let error_msg := "Error de integridad al crear ítem '" +:+ py_str item_name +:+ "': " +:+ str e in
       logger_error error_msg ;;
       raise (ItemCRUDError error_msg)
     else if isinstance e CSQLAlchemyError then
       session_rollback ;;
       item_name ← getattr item "name";
       let error_msg := "Error de base de datos al crear ítem '" +:+ py_str item_name +:+ "': " +:+ str e in
       logger_error error_msg ;;
       raise (ItemCRUDError error_msg)
     else
       session_rollback ;;
       item_name ← getattr item "name";
       let error_msg := "Error inesperado al crear ítem '" +:+ py_str item_name +:+ "': " +:+ str e in
       logger_error error_msg ;;
       raise (ItemCRUDError error_msg)).

Definition get_items : M (list ref) :=
  try_except
    (logger_info "Consultando todos los ítems" ;;
     items ← session_exec_select_all;
     logger_info ("Se encontraron " +:+ pretty (length items) +:+ " ítems") ;;
     mret items)
    (λ e,
     if isinstance e CSQLAlchemyError then
       let error_msg := "Error de base de datos al consultar ítems: " +:+ str e in
       logger_error error_msg ;;
       raise (ItemCRUDError error_msg)
     else
       let error_msg := "Error inesperado al consultar ítems: " +:+ str e in
       logger_error error_msg ;;
       raise (ItemCRUDError error_msg)).

Definition get_item_by_id (item_id : Z) : M (option ref) :=
  try_except
    (logger_info ("Consultando ítem con ID: " +:+ pretty item_id) ;;
     item ← session_get item_id;
     match item with
     | Some r =>
         item_name ← getattr r "name";
         logger_info ("Ítem encontrado: " +:+ py_str item_name)
     | None =>
         logger_info ("No se encontró ítem con ID: " +:+ pretty item_id)
     end ;;
     mret item)
    (λ e,
     if isinstance e CSQLAlchemyError then
       let error_msg := "Error de base de datos al consultar ítem con ID " +:+ pretty item_id +:+ ": " +:+ str e in
       logger_error error_msg ;;
       raise (ItemCRUDError error_msg)
     else
       let error_msg := "Error inesperado al consultar ítem con ID " +:+ pretty item_id +:+ ": " +:+ str e in
       logger_error error_msg ;;
       raise (ItemCRUDError error_msg)).

(** The loop of [update_item]:
    [for field, value in item_data.items():
       if hasattr(item, field): setattr(item, field, value)]. *)
Definition update_fields (item : ref) (item_data : list (string * pyval))
    : M unit :=
  for_each item_data (λ '(field, value),
    has ← hasattr item field;
    if has : bool then setattr item field value else mret tt).

Definition update_item (item_id : Z) (item_data : list (string * pyval))
    : M (option ref) :=
  try_except
    (logger_info ("Actualizando ítem con ID: " +:+ pretty item_id) ;;
     item ← session_get item_id;
     match item with
     | None =>
         logger_warning ("No se encontró ítem con ID: " +:+ pretty item_id +:+ " para actualizar") ;;
         mret None
     | Some item =>
         update_fields item item_data ;;
         session_add item ;;
         session_commit ;;
         session_refresh item ;;
         item_name ← getattr item "name";
         logger_info ("Ítem actualizado exitosamente: " +:+ py_str item_name) ;;
         mret (Some item)
     end)
    (λ e,
     if isinstance e CIntegrityError then
       session_rollback ;;
       let error_msg := "Error de integridad al actualizar ítem con ID " +:+ pretty item_id +:+ ": " +:+ str e in
       logger_error error_msg ;;
       raise (ItemCRUDError error_msg)
     else if isinstance e CSQLAlchemyError then
       session_rollback ;;
       let error_msg := "Error de base de datos al actualizar ítem con ID " +:+ pretty item_id +:+ ": " +:+ str e in
       logger_error error_msg ;;
       raise (ItemCRUDError error_msg)
     else
       session_rollback ;;
       let error_msg := "Error inesperado al actualizar ítem con ID " +:+ pretty item_id +:+ ": " +:+ str e in
       logger_error error_msg ;;
       raise (ItemCRUDError error_msg)).

Definition delete_item (item_id : Z) : M bool :=
  try_except
    (logger_info ("Eliminando ítem con ID: " +:+ pretty item_id) ;;
     item ← session_get item_id;
     match item with
     | None =>
         logger_warning ("No se encontró ítem con ID: " +:+ pretty item_id +:+ " para eliminar") ;;
         mret false
     | Some item =>
         session_delete item ;;
         session_commit ;;
         item_name ← getattr item "name";
         logger_info ("Ítem eliminado exitosamente: " +:+ py_str item_name) ;;
         mret true
     end)
    (λ e,
     if isinstance e CSQLAlchemyError then
       session_rollback ;;
       let error_msg := "Error de base de datos al eliminar ítem con ID " +:+ pretty item_id +:+ ": " +:+ str e in
       logger_error error_msg ;;
       raise (ItemCRUDError error_msg)
     else
       session_rollback ;;
       let error_msg := "Error inesperado al eliminar ítem con ID " +:+ pretty item_id +:+ ": " +:+ str e in
       logger_error error_msg ;;
       raise (ItemCRUDError error_msg)).

End Crud.

(** ** app/main.py *)

Module Main.
Import Crud.

Definition internal_error_detail : string := "Error interno del servidor".

Definition not_found_detail (item_id : Z) : string :=
  "Ítem con ID " +:+ pretty item_id +:+ " no encontrado".

Definition create (item : ref) : M ref :=
  try_except
    (create_item item)
    (λ e,
     if isinstance e CItemCRUDError then
       logger_error ("Error en endpoint create: " +:+ str e) ;;
       raise (HTTPException HTTP_400_BAD_REQUEST (str e))
     else
       logger_error ("Error inesperado en endpoint create: " +:+ str e) ;;
       raise (HTTPException HTTP_500_INTERNAL_SERVER_ERROR internal_error_detail)).

Definition read_all : M (list ref) :=
  try_except
    get_items
    (λ e,
     if isinstance e CItemCRUDError then
       logger_error ("Error en endpoint read_all: " +:+ str e) ;;
       raise (HTTPException HTTP_400_BAD_REQUEST (str e))
     else
       logger_error ("Error inesperado en endpoint read_all: " +:+ str e) ;;
       raise (HTTPException HTTP_500_INTERNAL_SERVER_ERROR internal_error_detail)).

Definition read_one (item_id : Z) : M ref :=
  try_except
    (item ← get_item_by_id item_id;
     match item with
     | None => raise (HTTPException HTTP_404_NOT_FOUND (not_found_detail item_id))
     | Some item => mret item
     end)
    (λ e,
     if isinstance e CHTTPException then
       raise e
     else if isinstance e CItemCRUDError then
       logger_error ("Error en endpoint read_one: " +:+ str e) ;;
       raise (HTTPException HTTP_400_BAD_REQUEST (str e))
     else
       logger_error ("Error inesperado en endpoint read_one: " +:+ str e) ;;
       raise (HTTPException HTTP_500_INTERNAL_SERVER_ERROR internal_error_detail)).

Definition update (item_id : Z) (item_data : list (string * pyval)) : M ref :=
  try_except
    (updated_item ← update_item item_id item_data;
     match updated_item with
     | None => raise (HTTPException HTTP_404_NOT_FOUND (not_found_detail item_id))
     | Some updated_item => mret updated_item
     end)
    (λ e,
     if isinstance e CHTTPException then
       raise e
     else if isinstance e CItemCRUDError then
       logger_error ("Error en endpoint update: " +:+ str e) ;;
       raise (HTTPException HTTP_400_BAD_REQUEST (str e))
     else
       logger_error ("Error inesperado en endpoint update: " +:+ str e) ;;
       raise (HTTPException HTTP_500_INTERNAL_SERVER_ERROR internal_error_detail)).

Definition delete (item_id : Z) : M unit :=
  try_except
    (deleted ← delete_item item_id;
     if negb deleted then
       raise (HTTPException HTTP_404_NOT_FOUND (not_found_detail item_id))
     else mret tt)
    (λ e,
     if isinstance e CHTTPException then
       raise e
     else if isinstance e CItemCRUDError then
       logger_error ("Error en endpoint delete: " +:+ str e) ;;
       raise (HTTPException HTTP_400_BAD_REQUEST (str e))
     else
       logger_error ("Error inesperado en endpoint delete: " +:+ str e) ;;
       raise (HTTPException HTTP_500_INTERNAL_SERVER_ERROR internal_error_detail)).

(** What FastAPI makes of a handler: the session comes from [get_session],
    a returned value is serialised under the route's success status, and an
    escaping [HTTPException] becomes a response with its status code and
    its detail.  The request is taken as parsed: the validation of the body
    that precedes the handler is not modelled. *)
Inductive Content : Type :=
  | JItem (item_id item_name : pyval)
  | JItems (items : list (pyval * pyval))
  | JDetail (detail : string)
  | JText (text : string)
  | JEmpty.

Record Response : Type := mkResponse {
  status : Z;
  content : Content
}.

Definition jsonable_item (item : ref) : M Content :=
  it ← deref item; mret (JItem (id it) (name it)).

Fixpoint jsonable_list (items : list ref) : M (list (pyval * pyval)) :=
  match items with
  | [] => mret []
  | r :: items' =>
      it ← deref r; l ← jsonable_list items'; mret ((id it, name it) :: l)
  end.

Definition jsonable_items (items : list ref) : M Content :=
  its ← jsonable_list items; mret (JItems its).

Definition route {A} (success : Z) (handler : M A) (jsonable : A → M Content)
    (w : World) : Response * World :=
  match (a ← handler; jsonable a) (get_session w) with
  | (Return c, w') => (mkResponse success c, w')
  | (Raise (HTTPException code detail), w') => (mkResponse code (JDetail detail), w')
  | (Raise _, w') =>
      (mkResponse HTTP_500_INTERNAL_SERVER_ERROR (JText "Internal Server Error"), w')
  end.

(** POST /items/ *)
Definition POST_items (item_id item_name : pyval) : World → Response * World :=
  route HTTP_201_CREATED (item ← alloc (new_item item_id item_name); create item)
        jsonable_item.

(** GET /items/ *)
Definition GET_items : World → Response * World :=
  route HTTP_200_OK read_all jsonable_items.

(** GET /items/{item_id} *)
Definition GET_item (item_id : Z) : World → Response * World :=
  route HTTP_200_OK (read_one item_id) jsonable_item.

(** PUT /items/{item_id} *)
Definition PUT_item (item_id : Z) (item_data : list (string * pyval))
    : World → Response * World :=
  route HTTP_200_OK (update item_id item_data) jsonable_item.

(** DELETE /items/{item_id} *)
Definition DELETE_item (item_id : Z) : World → Response * World :=
  route HTTP_204_NO_CONTENT (delete item_id) (λ _, mret JEmpty).

End Main.

(** ** Runs on concrete worlds *)

(** An engine on which no call fails, which refuses every value that is
    not of the column's type, scans by primary key and knows a few
    attributes of an object besides the fields. *)
Definition strict_adapt {A} (v : pyval) : storage_error + A :=
  inl (SaError ("Error binding parameter: type '" +:+ py_str v +:+ "' is not supported")).

Definition sqlite_message (i : Incident) (t : gmap Z string) (it : Item)
    : string :=
  match i with
  | UniqueViolation => "UNIQUE constraint failed: item.id"
  | NotNullViolation => "NOT NULL constraint failed: item.name"
  | StaleRow => "UPDATE statement on table 'item' expected to update 1 row(s); 0 were matched."
  | NotPersistent => "Instance is not persistent within this Session"
  | RowGone => "Could not refresh instance"
  end.

Definition object_attrs : list string :=
  ["__class__"; "__dict__"; "metadata"; "model_dump"; "model_fields"].

Definition no_field_message (field : string) (value : pyval) : option string :=
  Some ("'Item' object has no field '" +:+ field +:+ "'").

Definition engine_with (fs : Prim → option storage_error)
    (lf : option storage_error) : Engine :=
  mkEngine fs lf strict_adapt strict_adapt sqlite_message
           (λ _, 0) by_key (λ f, bool_decide (f ∈ object_attrs))
           no_field_message.

Definition healthy : Engine := engine_with (λ _, None) None.

(** The same engine with the calls listed in [fs] failing. *)
Fixpoint fault_of (fs : list (Prim * storage_error)) (q : Prim)
    : option storage_error :=
  match fs with
  | [] => None
  | (p, e) :: fs' => if decide (p = q) then Some e else fault_of fs' q
  end.

Definition faulty (fs : list (Prim * storage_error)) : Engine :=
  engine_with (fault_of fs) None.

Definition failing (p : Prim) (e : storage_error) : Engine := faulty [(p, e)].

Definition world_of (E : Engine) (rows : list (Z * string)) : World :=
  mkWorld E (list_to_map rows) [] [] [].

(** The same, inside a request that holds the objects [os]. *)
Definition world_with (E : Engine) (rows : list (Z * string)) (os : list Item)
    : World :=
  mkWorld E (list_to_map rows) os [] [].

(** [no_fault E]: no storage call fails in this request. *)
Definition all_prims : list Prim :=
  [PGet; PAdd; PDelete; PCommit; PRefresh; PExec; PRollback].

Definition no_fault (E : Engine) : bool :=
  forallb (λ p, bool_decide (fails E p = None)) all_prims.

(** The names that are attributes of an object without being fields, and
    the payloads that have none of them among their keys. *)
Definition other_attr (E : Engine) (field : string) : bool :=
  negb (item_hasattr field) && has_other_attr E field.

Definition plain_payload (E : Engine) (item_data : list (string * pyval)) : bool :=
  forallb (λ fv, negb (other_attr E fv.1)) item_data.

(** Where the loop of [update_item] stops: the text of the first
    assignment that raises, with the entries before it. *)
Fixpoint blocked (E : Engine) (item_data : list (string * pyval))
    : option (list (string * pyval) * string) :=
  match item_data with
  | [] => None
  | (field, value) :: item_data' =>
      match (if other_attr E field then setattr_other E field value else None) with
      | Some msg => Some ([], msg)
      | None =>
          match blocked E item_data' with
          | Some (before, msg) => Some ((field, value) :: before, msg)
          | None => None
          end
      end
  end.

(** What the loop of [update_item] leaves in the object when it runs to its
    end. *)
Fixpoint assign_fields (it : Item) (item_data : list (string * pyval)) : Item :=
  match item_data with
  | [] => it
  | (field, value) :: item_data' =>
      assign_fields
        (if item_hasattr field then item_setattr it field value else it)
        item_data'
  end.

(** The value a payload gives a field: its last entry for it. *)
Fixpoint dict_get (d : list (string * pyval)) (field : string) : option pyval :=
  match d with
  | [] => None
  | (f, v) :: d' =>
      match dict_get d' field with
      | Some v' => Some v'
      | None => if decide (f = field) then Some v else None
      end
  end.

(** The five routes as requests, with the repository operation each one
    invokes and the handler that serves it (results dropped, so that the
    five have one type). *)
Inductive Request : Type :=
  | ReqCreate (item : ref)
  | ReqReadAll
  | ReqReadOne (item_id : Z)
  | ReqUpdate (item_id : Z) (item_data : list (string * pyval))
  | ReqDelete (item_id : Z).

Definition void {A} (m : M A) : M unit := _ ← m; mret tt.

Definition repository (q : Request) : M unit :=
  match q with
  | ReqCreate item => void (Crud.create_item item)
  | ReqReadAll => void Crud.get_items
  | ReqReadOne item_id => void (Crud.get_item_by_id item_id)
  | ReqUpdate item_id item_data => void (Crud.update_item item_id item_data)
  | ReqDelete item_id => void (Crud.delete_item item_id)
  end.

Definition endpoint (q : Request) : M unit :=
  match q with
  | ReqCreate item => void (Main.create item)
  | ReqReadAll => void Main.read_all
  | ReqReadOne item_id => void (Main.read_one item_id)
  | ReqUpdate item_id item_data => void (Main.update item_id item_data)
  | ReqDelete item_id => Main.delete item_id
  end.

(** The three writes of the repository, as calls made in a new session. *)
Inductive WriteOp : Type :=
  | OpCreate (item_id item_name : pyval)
  | OpUpdate (item_id : Z) (item_data : list (string * pyval))
  | OpDelete (item_id : Z).

Definition write_call (op : WriteOp) (w : World) : outcome unit * World :=
  match op with
  | OpCreate item_id item_name =>
      void (item ← alloc (new_item item_id item_name); Crud.create_item item)
           (get_session w)
  | OpUpdate item_id item_data =>
      void (Crud.update_item item_id item_data) (get_session w)
  | OpDelete item_id =>
      void (Crud.delete_item item_id) (get_session w)
  end.


(** Any call of the repository, made in a new session, and a sequence of
    them, one request after the other. *)
Inductive Call : Type :=
  | CallWrite (op : WriteOp)
  | CallList
  | CallGet (item_id : Z).

Definition repo_call (c : Call) (w : World) : outcome unit * World :=
  match c with
  | CallWrite op => write_call op w
  | CallList => void Crud.get_items (get_session w)
  | CallGet item_id => void (Crud.get_item_by_id item_id) (get_session w)
  end.

Definition run_calls (cs : list Call) (w : World) : World :=
  foldl (λ w c, (repo_call c w).2) w cs.

(** The calls that neither create an item nor carry an [id] entry in an
    update payload. *)
Definition no_id_given (c : Call) : bool :=
  match c with
  | CallWrite (OpCreate _ _) => false
  | CallWrite (OpUpdate _ item_data) => bool_decide (dict_get item_data "id" = None)
  | _ => true
  end.

(** The requests that carry an id in their path. *)
Definition id_keyed (q : Request) : bool :=
  match q with
  | ReqReadOne _ | ReqUpdate _ _ | ReqDelete _ => true
  | _ => false
  end.

(** The row a write is asked to work on; a create names none. *)
Definition addressed (op : WriteOp) : option Z :=
  match op with
  | OpCreate _ _ => None
  | OpUpdate item_id _ | OpDelete item_id => Some item_id
  end.

(** One POST /items/ per name, none with an id, one request after the
    other. *)
Definition create_all (names : list string) (w : World) : World :=
  foldl (λ w n, (Main.POST_items PNone (PStr n) w).2) w names.

(** * Properties *)

Import Crud Main.


Lemma no_fault_fails E p : no_fault E = true → fails E p = None.
Proof.
  unfold no_fault. rewrite forallb_forall. intros H.
  specialize (H p). rewrite bool_decide_eq_true in H. apply H.
  destruct p; simpl; tauto.
Qed.

(** Symbolic execution: the definitions of the embedding are unfolded, the
    storage and the strings are left alone. *)
Ltac exec :=
  cbv beta iota zeta delta
    [create_item get_items get_item_by_id update_item delete_item
     create read_all read_one update delete
     route POST_items GET_items GET_item PUT_item DELETE_item
     jsonable_item jsonable_items
     flush flush_write
     try_except raise mbind M_bind mret M_ret
     alloc deref load getattr hasattr setattr
     logger_log logger_info logger_warning logger_error
     fault raised adapted unique_violation session_get session_add session_delete session_commit
     session_refresh session_rollback session_exec_select_all get_session
     set_objects set_pending set_log
     engine db objects pending log fst snd
     HTTP_200_OK HTTP_201_CREATED HTTP_204_NO_CONTENT HTTP_400_BAD_REQUEST
     HTTP_404_NOT_FOUND HTTP_500_INTERNAL_SERVER_ERROR].

Lemma bind_name_PStr (E : Engine) (t : gmap Z string) (i : pyval) (s : string)
    (k : option Z) (x : bool) :
  bind_name E t (mkItem i (PStr s) k x) = Return s.
Proof. reflexivity. Qed.

Lemma bind_name_loaded (E : Engine) (t : gmap Z string) (k : Z) (n : string) :
  bind_name E t (loaded k n) = Return n.
Proof. reflexivity. Qed.

Lemma bind_name_new (E : Engine) (t : gmap Z string) (i : pyval) (s : string) :
  bind_name E t (new_item i (PStr s)) = Return s.
Proof. reflexivity. Qed.

Lemma bind_id_PInt (E : Engine) (z : Z) : bind_id E (PInt z) = Return z.
Proof. reflexivity. Qed.

Lemma bind_name_PNone (E : Engine) (t : gmap Z string) (i : pyval)
    (k : option Z) (x : bool) :
  bind_name E t (mkItem i PNone k x)
  = Raise (IntegrityError (message E NotNullViolation t (mkItem i PNone k x))).
Proof. reflexivity. Qed.

Lemma bind_id_stored (E : Engine) (v : pyval) (k : Z) :
  bind_id E v = Return k ↔ stored_id E v = Some k.
Proof. unfold stored_id. destruct (bind_id E v); split; congruence. Qed.

Lemma bind_name_stored (E : Engine) (t : gmap Z string) (it : Item) (n : string) :
  bind_name E t it = Return n ↔ stored_name E (name it) = Some n.
Proof.
  unfold stored_name, bind_name. simpl.
  destruct (name it); simpl; try destruct (adapt_name E _); simpl;
    split; congruence.
Qed.

Arguments bind_id : simpl never.
Arguments bind_name : simpl never.

Ltac go :=
  repeat (progress
    (exec; simpl;
     rewrite ?lookup_delete_eq, ?lookup_insert_eq,
             ?bind_name_PStr, ?bind_name_loaded, ?bind_name_new,
             ?bind_id_PInt, ?bind_name_PNone;
     repeat match goal with
       | H : ?x = _ |- context [?x] => rewrite H
       end)).

Ltac open_world w :=
  let E := fresh "E" in let t := fresh "t" in let os := fresh "os" in
  let ps := fresh "ps" in let lg := fresh "lg" in
  destruct w as [E t os ps lg]; simpl in *.

(** ** Missing rows *)

(** C4.  When the table has no row for [item_id] and the lookup itself does
    not fail, [get_item_by_id] returns None, [update_item] returns None and
    [delete_item] returns False; none of them raises, and the table is left
    as it was. *)
Theorem missing_row_is_normal_return (item_id : Z)
    (item_data : list (string * pyval)) (w : World) :
  db w !! item_id = None →
  fails (engine w) PGet = None →
  ((get_item_by_id item_id w).1 = Return None
   ∧ db (get_item_by_id item_id w).2 = db w)
  ∧ ((update_item item_id item_data w).1 = Return None
     ∧ db (update_item item_id item_data w).2 = db w)
  ∧ ((delete_item item_id w).1 = Return false
     ∧ db (delete_item item_id w).2 = db w).
Proof.
  open_world w. intros Hrow Hget.
  repeat split; exec; rewrite Hget; exec; rewrite Hrow; reflexivity.
Qed.

Lemma missing_row_is_normal_return_witness :
  ((get_item_by_id 2 (world_of healthy [(1, "a")])).1 = Return None
   ∧ db (get_item_by_id 2 (world_of healthy [(1, "a")])).2
     = db (world_of healthy [(1, "a")]))
  ∧ ((update_item 2 [("name", PStr "b")] (world_of healthy [(1, "a")])).1
       = Return None
     ∧ db (update_item 2 [("name", PStr "b")] (world_of healthy [(1, "a")])).2
       = db (world_of healthy [(1, "a")]))
  ∧ ((delete_item 2 (world_of healthy [(1, "a")])).1 = Return false
     ∧ db (delete_item 2 (world_of healthy [(1, "a")])).2
       = db (world_of healthy [(1, "a")])).
Proof.
  apply (missing_row_is_normal_return 2 [("name", PStr "b")]
           (world_of healthy [(1, "a")])); reflexivity.
Defined.

(** ** The 404 of the id-keyed handlers *)

(** C10.  In [read_one], [update] and [delete] the HTTPException with status
    404 that the body raises for an absent id leaves the handler as it was
    raised: the [except HTTPException: raise] clause comes first, so neither
    the 400 clause nor the 500 clause sees it.  The routes answer 404 with
    the detail naming the id. *)
Theorem not_found_is_reraised_unchanged (item_id : Z)
    (item_data : list (string * pyval)) (w : World) :
  db w !! item_id = None →
  fails (engine w) PGet = None →
  let not_found := HTTPException HTTP_404_NOT_FOUND (not_found_detail item_id) in
  ((read_one item_id w).1 = Raise not_found
   ∧ (update item_id item_data w).1 = Raise not_found
   ∧ (delete item_id w).1 = Raise not_found)
  ∧ ((GET_item item_id w).1 = mkResponse 404 (JDetail (not_found_detail item_id))
     ∧ (PUT_item item_id item_data w).1
       = mkResponse 404 (JDetail (not_found_detail item_id))
     ∧ (DELETE_item item_id w).1
       = mkResponse 404 (JDetail (not_found_detail item_id))).
Proof.
  open_world w. intros Hrow Hget.
  repeat split; exec; rewrite Hget; exec; rewrite Hrow; reflexivity.
Qed.

Lemma not_found_is_reraised_unchanged_witness :
  let w := world_of healthy [(1, "a")] in
  let not_found := HTTPException 404 "Ítem con ID 99999 no encontrado" in
  ((read_one 99999 w).1 = Raise not_found
   ∧ (update 99999 [("name", PStr "New")] w).1 = Raise not_found
   ∧ (delete 99999 w).1 = Raise not_found)
  ∧ ((GET_item 99999 w).1 = mkResponse 404 (JDetail "Ítem con ID 99999 no encontrado")
     ∧ (PUT_item 99999 [("name", PStr "New")] w).1
       = mkResponse 404 (JDetail "Ítem con ID 99999 no encontrado")
     ∧ (DELETE_item 99999 w).1
       = mkResponse 404 (JDetail "Ítem con ID 99999 no encontrado")).
Proof.
  apply (not_found_is_reraised_unchanged 99999 [("name", PStr "New")]
           (world_of healthy [(1, "a")])); reflexivity.
Defined.

(** ** Delete *)

(** C6.  Deleting an id that has a row answers 204 with an empty body and
    removes the row; the next GET of that id answers 404, and so does a
    second DELETE of it. *)
Theorem delete_then_not_found (item_id : Z) (n : string) (w : World) :
  db w !! item_id = Some n →
  no_fault (engine w) = true →
  let '(r1, w1) := DELETE_item item_id w in
  let '(r2, w2) := GET_item item_id w1 in
  let '(r3, w3) := DELETE_item item_id w2 in
  r1 = mkResponse 204 JEmpty
  ∧ r2 = mkResponse 404 (JDetail (not_found_detail item_id))
  ∧ r3 = mkResponse 404 (JDetail (not_found_detail item_id))
  ∧ db w1 = base.delete item_id (db w).
Proof.
  open_world w. intros Hrow Hok.
  pose proof (no_fault_fails E PGet Hok) as Hget.
  pose proof (no_fault_fails E PDelete Hok) as Hdel.
  pose proof (no_fault_fails E PCommit Hok) as Hcommit.
  go. auto.
Qed.

Lemma delete_then_not_found_witness :
  let w := world_of healthy [(1, "Widget"); (2, "Gadget")] in
  let '(r1, w1) := DELETE_item 2 w in
  let '(r2, w2) := GET_item 2 w1 in
  let '(r3, w3) := DELETE_item 2 w2 in
  r1 = mkResponse 204 JEmpty
  ∧ r2 = mkResponse 404 (JDetail (not_found_detail 2))
  ∧ r3 = mkResponse 404 (JDetail (not_found_detail 2))
  ∧ db w1 = base.delete 2 (db w).
Proof.
  apply (delete_then_not_found 2 "Gadget"
           (world_of healthy [(1, "Widget"); (2, "Gadget")])); reflexivity.
Defined.

(** ** Translation of exceptions at the HTTP boundary *)

Lemma void_raise {A} (m : M A) (w w' : World) (e : exc) :
  void m w = (Raise e, w') → m w = (Raise e, w').
Proof.
  unfold void, mbind, M_bind, mret, M_ret.
  destruct (m w) as [[a|e0] w0]; congruence.
Qed.

(** C5.  On every route, when the repository operation raises
    [ItemCRUDError] the handler raises the HTTPException with status 400
    whose detail is the error's message; when it raises anything else (other
    than an HTTPException, which only the handlers themselves raise) the
    handler raises the HTTPException with status 500 and the fixed detail,
    whatever the message of the exception was, and that message is written
    to the log at level ERROR. *)
Theorem repository_errors_are_translated (q : Request) (w w' : World) (e : exc) :
  repository q w = (Raise e, w') →
  (∀ m, e = ItemCRUDError m →
        (endpoint q w).1 = Raise (HTTPException 400 m))
  ∧ (isinstance e CItemCRUDError = false →
     isinstance e CHTTPException = false →
     (endpoint q w).1 = Raise (HTTPException 500 "Error interno del servidor")
     ∧ ∃ pre, (ERROR, pre +:+ str e) ∈ log (endpoint q w).2).
Proof.
  intros Hrepo.
  destruct q; simpl in *; apply void_raise in Hrepo;
    unfold void, create, read_all, read_one, update, delete, try_except,
           mbind, M_bind;
    rewrite Hrepo;
    (split; [intros m ->; reflexivity|]);
    intros Hcrud Hhttp; destruct e; try discriminate; simpl;
    (split; [reflexivity|]);
    eexists; apply elem_of_app; right; apply list_elem_of_singleton; reflexivity.
Qed.

(** A create of an id that is taken is refused by the table: the repository
    reports it and the handler raises 400.  A delete whose commit fails and
    whose rollback fails too lets the second exception escape the
    repository: the handler raises 500 with the fixed detail. *)
Lemma repository_errors_are_translated_witness :
  (endpoint (ReqCreate 0%nat)
     (world_with healthy [(1, "Widget")] [new_item (PInt 1) (PStr "Other")])).1
  = Raise (HTTPException 400
      "Error de integridad al crear ítem 'Other': UNIQUE constraint failed: item.id")
  ∧ (endpoint (ReqDelete 1)
       (world_of (faulty [(PCommit, SaError "disk I/O error");
                          (PRollback, PyError "connection closed")])
                 [(1, "Widget")])).1
    = Raise (HTTPException 500 "Error interno del servidor").
Proof.
  split.
  - eapply (proj1 (repository_errors_are_translated (ReqCreate 0%nat)
             (world_with healthy [(1, "Widget")] [new_item (PInt 1) (PStr "Other")])
             _ _ ltac:(vm_compute; reflexivity))).
    reflexivity.
  - eapply (proj2 (repository_errors_are_translated (ReqDelete 1)
             (world_of (faulty [(PCommit, SaError "disk I/O error");
                                (PRollback, PyError "connection closed")])
                       [(1, "Widget")])
             _ _ ltac:(vm_compute; reflexivity))); reflexivity.
Defined.

(** ** Keys handed out by the table *)

Lemma foldr_max_ge (k0 : Z) (ks : list Z) (k : Z) :
  k ∈ k0 :: ks → k ≤ foldr Z.max k0 ks.
Proof.
  induction ks as [|k1 ks IH]; simpl; intros Hin.
  - apply list_elem_of_singleton in Hin. lia.
  - apply elem_of_cons in Hin as [->|Hin].
    + assert (k0 ≤ foldr Z.max k0 ks) by (apply IH; left). lia.
    + apply elem_of_cons in Hin as [->|Hin]; [lia|].
      assert (k ≤ foldr Z.max k0 ks) by (apply IH; right; done). lia.
Qed.

(** The key of an insert without id is not in use, whatever the table. *)
Lemma next_id_fresh (E : Engine) (t : gmap Z string) : t !! next_id E t = None.
Proof.
  unfold next_id. destruct (elements (dom t)) as [|k0 ks] eqn:Hel.
  - apply not_elem_of_dom. apply elements_empty_inv in Hel.
    rewrite Hel. apply not_elem_of_empty.
  - simpl. destruct (decide (foldr Z.max k0 ks < MAX_KEY)) as [Hlt|Hsat].
    + destruct (t !! (1 + foldr Z.max k0 ks)) eqn:Hk; [|done].
      assert (1 + foldr Z.max k0 ks ∈ k0 :: ks) as Hin.
      { rewrite <- Hel. apply elem_of_elements, elem_of_dom. eauto. }
      apply foldr_max_ge in Hin. lia.
    + destruct (decide (t !! pick_key E t = None)) as [Hfree|Hused]; [done|].
      apply not_elem_of_dom, is_fresh.
Qed.

(** As long as the largest key there is has not been reached, it is above
    every key in use. *)
Lemma next_id_above (E : Engine) (t : gmap Z string) (k : Z) :
  (∀ j, is_Some (t !! j) → j < MAX_KEY) →
  is_Some (t !! k) → k < next_id E t.
Proof.
  intros Hbound Hk. pose proof Hk as Hk'.
  apply elem_of_dom, elem_of_elements in Hk.
  unfold next_id. destruct (elements (dom t)) as [|k0 ks] eqn:Hel.
  - by apply elem_of_nil in Hk.
  - simpl. apply foldr_max_ge in Hk.
    rewrite decide_True; [lia|].
    assert (foldr Z.max k0 ks ∈ k0 :: ks) as Hin.
    { clear. induction ks as [|k1 ks IH]; simpl; [left|].
      destruct (Z.max_spec k1 (foldr Z.max k0 ks)) as [[_ ->]|[_ ->]].
      - apply elem_of_cons in IH as [->|IH]; [left|right; right; done].
      - right; left. }
    rewrite <- Hel in Hin. apply elem_of_elements, elem_of_dom in Hin.
    by apply Hbound.
Qed.

(** ** The update loop *)

(** The loop runs to its end, or stops at the first assignment that
    raises, with the assignments before it done.  The object is one the
    session has loaded, as [session.get] returns it. *)
Lemma update_fields_spec (item_data : list (string * pyval)) (r : ref)
    (it : Item) (w : World) :
  objects w !! r = Some it →
  expired it = false →
  update_fields r item_data w
  = match blocked (engine w) item_data with
    | None =>
        (Return tt, set_objects (<[r := assign_fields it item_data]> (objects w)) w)
    | Some (before, msg) =>
        (Raise (OtherException msg),
         set_objects (<[r := assign_fields it before]> (objects w)) w)
    end.
Proof.
  unfold update_fields.
  revert it w. induction item_data as [|[field value] d IH]; intros it w Hr Hx.
  - simpl. unfold mret, M_ret, set_objects. rewrite list_insert_id by done.
    by destruct w.
  - simpl. unfold hasattr, other_attr. destruct (item_hasattr field) eqn:Hf; simpl.
    + unfold mbind, M_bind, load, setattr, deref, mbind, M_bind, mret, M_ret.
      rewrite Hr, Hx, Hr, Hf.
      rewrite (IH (item_setattr it field value)).
      * simpl. destruct (blocked (engine w) d) as [[before msg]|];
          unfold set_objects; simpl; rewrite ?Hf; by rewrite list_insert_insert_eq.
      * simpl. apply list_lookup_insert_eq. by eapply lookup_lt_Some.
      * unfold item_setattr. repeat case_decide; done.
    + unfold mbind, M_bind, setattr, deref, mbind, M_bind, mret, M_ret.
      rewrite Hr. destruct (has_other_attr (engine w) field); simpl.
      * rewrite Hr, Hf.
        destruct (setattr_other (engine w) field value) as [msg|].
        -- unfold set_objects. rewrite list_insert_id by done. by destruct w.
        -- rewrite (IH it) by done.
           destruct (blocked (engine w) d) as [[before msg]|]; simpl;
             by rewrite ?Hf.
      * rewrite (IH it) by done.
        destruct (blocked (engine w) d) as [[before msg]|]; simpl;
          by rewrite ?Hf.
Qed.

Lemma plain_payload_blocked (E : Engine) (item_data : list (string * pyval)) :
  plain_payload E item_data = true → blocked E item_data = None.
Proof.
  unfold plain_payload.
  induction item_data as [|[f v] d IH]; simpl; [done|].
  intros [Hf Hd]%andb_prop. apply negb_true_iff in Hf. rewrite Hf.
  by rewrite IH.
Qed.

Lemma update_fields_plain (item_data : list (string * pyval)) (r : ref)
    (it : Item) (w : World) :
  plain_payload (engine w) item_data = true →
  objects w !! r = Some it →
  expired it = false →
  update_fields r item_data w
  = (Return tt, set_objects (<[r := assign_fields it item_data]> (objects w)) w).
Proof.
  intros Hplain Hr Hx. rewrite (update_fields_spec _ _ it) by done.
  by rewrite plain_payload_blocked.
Qed.

Lemma assign_fields_sa_key (item_data : list (string * pyval)) (it : Item) :
  sa_key (assign_fields it item_data) = sa_key it.
Proof.
  revert it. induction item_data as [|[f v] d IH]; intros it; simpl; [done|].
  rewrite IH. destruct (item_hasattr f); [|done].
  unfold item_setattr. repeat case_decide; done.
Qed.

Lemma assign_fields_expired (item_data : list (string * pyval)) (it : Item) :
  expired (assign_fields it item_data) = expired it.
Proof.
  revert it. induction item_data as [|[f v] d IH]; intros it; simpl; [done|].
  rewrite IH. destruct (item_hasattr f); [|done].
  unfold item_setattr. repeat case_decide; done.
Qed.

Lemma assign_fields_id (item_data : list (string * pyval)) (it : Item) :
  id (assign_fields it item_data) = default (id it) (dict_get item_data "id").
Proof.
  revert it. induction item_data as [|[f v] d IH]; intros it; simpl; [done|].
  rewrite IH. destruct (dict_get d "id"); simpl; [done|].
  destruct (decide (f = "id")) as [->|Hne]; [done|].
  destruct (item_hasattr f); [|done].
  unfold item_setattr. rewrite decide_False by done. by case_decide.
Qed.

Lemma assign_fields_name (item_data : list (string * pyval)) (it : Item) :
  name (assign_fields it item_data) = default (name it) (dict_get item_data "name").
Proof.
  revert it. induction item_data as [|[f v] d IH]; intros it; simpl; [done|].
  rewrite IH. destruct (dict_get d "name"); simpl; [done|].
  destruct (decide (f = "name")) as [->|Hne]; [done|].
  destruct (item_hasattr f); [|done].
  unfold item_setattr. case_decide; [done|]. by rewrite decide_False.
Qed.

Ltac go' :=
  repeat (progress (go; rewrite ?next_id_fresh, ?lookup_insert_eq)).

(** ** Create, then get *)

(** C1.  When no storage call fails, creating a new item that has the name
    [n] and no id returns an item whose id is set, to a key [k] that the
    storage chose and that no row had, and whose name is [n]; the row
    [k ↦ n] is in the table, and a get by that id in the next request
    returns an item equal to the one create returned.  The key is above
    every key in use as long as those are below the largest key there
    is. *)
Theorem create_then_get (n : string) (w : World) :
  no_fault (engine w) = true →
  let '(res, w1) :=
    (item ← alloc (new_item PNone (PStr n)); create_item item) (get_session w) in
  ∃ r it k,
    res = Return r
    ∧ objects w1 !! r = Some it
    ∧ id it = PInt k
    ∧ id it ≠ PNone
    ∧ name it = PStr n
    ∧ db w !! k = None
    ∧ db w1 = <[k := n]> (db w)
    ∧ ((∀ j, is_Some (db w !! j) → j < MAX_KEY) →
       ∀ j, is_Some (db w !! j) → j < k)
    ∧ let '(res2, w2) := get_item_by_id k (get_session w1) in
      ∃ r2, res2 = Return (Some r2) ∧ objects w2 !! r2 = Some it.
Proof.
  open_world w. intros Hok.
  pose proof (no_fault_fails E PGet Hok) as Hget.
  pose proof (no_fault_fails E PAdd Hok) as Hadd.
  pose proof (no_fault_fails E PCommit Hok) as Hcommit.
  pose proof (no_fault_fails E PRefresh Hok) as Hrefresh.
  go'.
  exists 0%nat, (loaded (next_id E t) n), (next_id E t).
  do 5 (split; [done|]).
  split; [apply next_id_fresh|]. split; [done|].
  split; [intros Hbound j Hj; by apply next_id_above|].
  go'. by exists 0%nat.
Qed.

Lemma create_then_get_witness :
  let '(res, w1) :=
    (item ← alloc (new_item PNone (PStr "Widget")); create_item item)
      (get_session (world_of healthy [(1, "Gadget")])) in
  ∃ r it k,
    res = Return r
    ∧ objects w1 !! r = Some it
    ∧ id it = PInt k
    ∧ id it ≠ PNone
    ∧ name it = PStr "Widget"
    ∧ db (world_of healthy [(1, "Gadget")]) !! k = None
    ∧ db w1 = <[k := "Widget"]> (db (world_of healthy [(1, "Gadget")]))
    ∧ ((∀ j, is_Some (db (world_of healthy [(1, "Gadget")]) !! j) → j < MAX_KEY) →
       ∀ j, is_Some (db (world_of healthy [(1, "Gadget")]) !! j) → j < k)
    ∧ let '(res2, w2) := get_item_by_id k (get_session w1) in
      ∃ r2, res2 = Return (Some r2) ∧ objects w2 !! r2 = Some it.
Proof.
  apply (create_then_get "Widget" (world_of healthy [(1, "Gadget")])). reflexivity.
Defined.

(** ** Failed writes *)

Lemma try_except_raise {A} (body : M A) (handler : exc → M A)
    (w w' : World) (e : exc) :
  try_except body handler w = (Raise e, w') →
  ∃ e0 w1, body w = (Raise e0, w1) ∧ handler e0 w1 = (Raise e, w').
Proof.
  unfold try_except. destruct (body w) as [[a|e0] w1]; [done|]. eauto.
Qed.

Lemma raised_not_crud (e : storage_error) (m : string) :
  raised e ≠ ItemCRUDError m.
Proof. by destruct e. Qed.

(** Case analysis on the next thing the execution is stuck on: whether a
    storage call fails, what a column makes of a value, whether a row is
    there, whether an object is expired. *)
Ltac split_on :=
  match goal with
  | |- context [match ?s with _ => _ end] =>
      match s with
      | fails _ _ => destruct s as [?|] eqn:?
      | load_fails _ => destruct s as [?|] eqn:?
      | bind_id _ _ => destruct s as [?|?] eqn:?
      | bind_name _ _ _ => destruct s as [?|?] eqn:?
      | blocked _ _ => destruct s as [[? ?]|] eqn:?
      | ?t !! _ => is_var t; destruct s eqn:?
      | expired ?i => is_var i; destruct i as [? ? ? ?]; simpl
      | sa_key ?i => is_var i; destruct i as [? ? ? ?]; simpl
      | id ?i => is_var i; destruct i as [? ? ? ?]; simpl
      | decide _ => destruct s
      | _ => is_var s; destruct s
      end
  end.

Ltac crunch :=
  repeat (progress
    (go';
     try (erewrite update_fields_spec by reflexivity);
     rewrite ?assign_fields_sa_key, ?assign_fields_expired;
     try split_on)).




(** C3 does not hold of the code.  In [create_item], [session.refresh(item)]
    stands in the try block after [session.commit()].  When the commit goes
    through and the refresh raises, the except clause calls
    [session.rollback()], which has nothing to roll back any more, and
    raises [ItemCRUDError]: POST /items/ answers 400 with the message of the
    create, nothing is pending, and the row of the item is in the table,
    under a key [k] that had no row. *)
Theorem failed_refresh_leaves_row (n : string) (se : storage_error) (w : World) :
  fails (engine w) PAdd = None →
  fails (engine w) PCommit = None →
  fails (engine w) PRefresh = Some se →
  fails (engine w) PRollback = None →
  load_fails (engine w) = None →
  let '(res, w1) := write_call (OpCreate PNone (PStr n)) w in
  let '(response, w2) := POST_items PNone (PStr n) w in
  ∃ k m,
    res = Raise (ItemCRUDError m)
    ∧ response = mkResponse 400 (JDetail m)
    ∧ pending w1 = []
    ∧ db w !! k = None
    ∧ db w1 = <[k := n]> (db w)
    ∧ db w2 = <[k := n]> (db w)
    ∧ db w1 ≠ db w.
Proof.
  open_world w. intros Hadd Hcommit Hrefresh Hrollback Hload.
  assert (<[next_id E t := n]> t ≠ t) as Hne.
  { intros Heq.
    assert (<[next_id E t := n]> t !! next_id E t = Some n) as Hin
      by apply lookup_insert_eq.
    rewrite Heq, next_id_fresh in Hin. done. }
  unfold write_call, POST_items, void.
  destruct se as [msg|msg|msg]; go'; exists (next_id E t); eexists;
    (repeat split; [reflexivity ..|apply next_id_fresh|done]).
Qed.

(** The table is empty, the item is named Widget and [session.refresh]
    raises: the answer is 400 and the row is in the table. *)
Lemma failed_refresh_leaves_row_witness :
  let w := world_of (failing PRefresh (SaError "connection lost")) [] in
  let '(res, w1) := write_call (OpCreate PNone (PStr "Widget")) w in
  let '(response, w2) := POST_items PNone (PStr "Widget") w in
  ∃ k m,
    res = Raise (ItemCRUDError m)
    ∧ response = mkResponse 400 (JDetail m)
    ∧ pending w1 = []
    ∧ db w !! k = None
    ∧ db w1 = <[k := "Widget"]> (db w)
    ∧ db w2 = <[k := "Widget"]> (db w)
    ∧ db w1 ≠ db w.
Proof.
  apply (failed_refresh_leaves_row "Widget" (SaError "connection lost")
           (world_of (failing PRefresh (SaError "connection lost")) []));
    reflexivity.
Defined.

(** The same request, evaluated: the message, and the row in the table. *)
Lemma failed_refresh_run :
  let w := world_of (failing PRefresh (SaError "connection lost")) [] in
  let '(res, w') := POST_items PNone (PStr "Widget") w in
  res = mkResponse 400
          (JDetail "Error de base de datos al crear ítem 'Widget': connection lost")
  ∧ pending w' = []
  ∧ db w = ∅
  ∧ db w' !! 1 = Some "Widget"
  ∧ (GET_items (mkWorld healthy (db w') [] [] [])).1
    = mkResponse 200 (JItems [(PInt 1, PStr "Widget")]).
Proof.
  vm_compute. repeat split.
Qed.

(** ** Listing *)

Lemma scan_keys_perm (E : Engine) (t : gmap Z string) :
  scan_keys E t ≡ₚ elements (dom t).
Proof. unfold scan_keys. apply merge_sort_Permutation. Qed.

Lemma scan_keys_elem_of (E : Engine) (t : gmap Z string) (k : Z) :
  k ∈ scan_keys E t ↔ is_Some (t !! k).
Proof. by rewrite scan_keys_perm, elem_of_elements, elem_of_dom. Qed.

Lemma scan_keys_NoDup (E : Engine) (t : gmap Z string) : NoDup (scan_keys E t).
Proof. rewrite scan_keys_perm. apply NoDup_elements. Qed.

(** The objects of a scan and the keys scanned go together, row by row. *)
Lemma table_scan_rows (E : Engine) (t : gmap Z string) :
  Forall2 (λ k it, ∃ n, t !! k = Some n ∧ it = loaded k n)
          (scan_keys E t) (table_scan E t).
Proof.
  unfold table_scan.
  assert (Forall (λ k, is_Some (t !! k)) (scan_keys E t)) as Hall.
  { apply Forall_forall. intros k. by rewrite scan_keys_elem_of. }
  induction Hall as [|k ks [n Hn] _ IH]; simpl; [constructor|].
  rewrite Hn. simpl. constructor; eauto.
Qed.

Lemma table_scan_ids (E : Engine) (t : gmap Z string) :
  id <$> table_scan E t = PInt <$> scan_keys E t.
Proof.
  pose proof (table_scan_rows E t) as Hrows.
  induction Hrows as [|k it ks its (n & _ & ->) _ IH]; [done|].
  rewrite !fmap_cons. by f_equal.
Qed.

Lemma table_scan_length (E : Engine) (t : gmap Z string) :
  length (table_scan E t) = size t.
Proof.
  rewrite <- (Forall2_length _ _ _ (table_scan_rows E t)).
  rewrite scan_keys_perm. rewrite <- size_dom. done.
Qed.




Lemma jsonable_list_allocated (pre os : list Item) (w : World) :
  objects w = pre ++ os →
  jsonable_list (seq (length pre) (length os)) w
  = (Return ((λ it, (id it, name it)) <$> os), w).
Proof.
  revert pre. induction os as [|it os IH]; intros pre Hobjs; [done|].
  simpl. unfold mbind, M_bind, deref. rewrite Hobjs.
  rewrite list_lookup_middle by done.
  specialize (IH (pre ++ [it])). rewrite length_app, Nat.add_1_r in IH.
  rewrite IH; [done|]. by rewrite <- (assoc_L (++)).
Qed.




(** ** The list route *)

(** C9, as the code has it.  GET /items/ answers 200 with the rows when the
    query goes through, and 400 with the repository's message when the
    storage fails: [get_items] turns every storage failure into
    [ItemCRUDError] and [read_all] maps that to 400.  It never answers 404. *)
Theorem list_route_responses (w : World) :
  (fails (engine w) PExec = None →
   (GET_items w).1
   = mkResponse 200 (JItems ((λ it, (id it, name it)) <$> table_scan (engine w) (db w))))
  ∧ (∀ e, fails (engine w) PExec = Some e →
          ∃ pre, (GET_items w).1 = mkResponse 400 (JDetail (pre +:+ str (raised e))))
  ∧ status (GET_items w).1 ≠ 404.
Proof.
  open_world w.
  assert (fails E PExec = None →
          (GET_items (mkWorld E t os ps lg)).1
          = mkResponse 200 (JItems ((λ it, (id it, name it)) <$> table_scan E t)))
    as Hnone.
  { intros Hexec. go.
    rewrite (jsonable_list_allocated [] (table_scan E t)) by done. done. }
  assert (∀ e, fails E PExec = Some e →
          ∃ pre, (GET_items (mkWorld E t os ps lg)).1
                 = mkResponse 400 (JDetail (pre +:+ str (raised e)))) as Hsome.
  { intros e Hexec. destruct e; go; eexists; reflexivity. }
  split; [done|]. split; [done|].
  destruct (fails E PExec) as [e|] eqn:Hexec.
  - destruct (Hsome e eq_refl) as [pre ->]. done.
  - rewrite Hnone by done. done.
Qed.

Lemma list_route_responses_witness :
  (GET_items (world_of healthy [(1, "Widget")])).1
  = mkResponse 200 (JItems [(PInt 1, PStr "Widget")])
  ∧ ∃ pre, (GET_items (world_of (failing PExec (SaError "disk I/O error")) [])).1
           = mkResponse 400 (JDetail (pre +:+ "disk I/O error")).
Proof.
  split.
  - apply (proj1 (list_route_responses (world_of healthy [(1, "Widget")]))).
    reflexivity.
  - apply (proj1 (proj2 (list_route_responses
             (world_of (failing PExec (SaError "disk I/O error")) [])))
             (SaError "disk I/O error")).
    reflexivity.
Defined.

(** C9, as stated, fails: a storage failure during the query makes the list
    route answer 400, not 500. *)
Lemma list_route_answers_400 :
  let w := world_of (failing PExec (SaError "disk I/O error")) [] in
  fails (engine w) PExec = Some (SaError "disk I/O error")
  ∧ (GET_items w).1
    = mkResponse 400
        (JDetail "Error de base de datos al consultar ítems: disk I/O error")
  ∧ status (GET_items w).1 ≠ 500.
Proof. vm_compute. repeat split. discriminate. Qed.

(** ** Update *)

Lemma bind_id_assign (E : Engine) (k : Z) (n0 : string)
    (item_data : list (string * pyval)) (k' : Z) :
  stored_id E (default (PInt k) (dict_get item_data "id")) = Some k' →
  bind_id E (id (assign_fields (loaded k n0) item_data)) = Return k'.
Proof. intros H. rewrite assign_fields_id. by apply bind_id_stored. Qed.

Lemma bind_name_assign (E : Engine) (t : gmap Z string) (k : Z) (n0 : string)
    (item_data : list (string * pyval)) (n' : string) :
  stored_name E (default (PStr n0) (dict_get item_data "name")) = Some n' →
  bind_name E t (assign_fields (loaded k n0) item_data) = Return n'.
Proof. intros H. apply bind_name_stored. by rewrite assign_fields_name. Qed.









(** An update whose payload has no entry for [id] leaves the ids of the
    table as they are, whatever its outcome, and the item it returns has the
    id it was asked for. *)
Lemma update_without_id (item_id : Z) (item_data : list (string * pyval))
    (w : World) :
  dict_get item_data "id" = None →
  let '(res, w') := update_item item_id item_data (get_session w) in
  dom (db w') = dom (db w)
  ∧ ∀ r, res = Return (Some r) →
         ∃ n', objects w' !! r = Some (loaded item_id n')
               ∧ db w' !! item_id = Some n'.
Proof.
  open_world w. intros Hdict.
  repeat (progress
    (go';
     try (erewrite update_fields_spec by reflexivity);
     rewrite ?assign_fields_sa_key, ?assign_fields_id, ?Hdict; simpl;
     rewrite ?bind_id_PInt;
     try split_on)).
  all: split;
    [ try done; by apply dom_insert_lookup_L
    | intros r Hr;
      first [ discriminate Hr
            | simplify_eq/=; rewrite ?lookup_insert_eq; by eexists ] ].
Qed.

Lemma void_db {A} (m : M A) (w : World) : db (void m w).2 = db (m w).2.
Proof.
  unfold void, mbind, M_bind, mret, M_ret. by destruct (m w) as [[a|e] w'].
Qed.

Lemma delete_item_ids (item_id : Z) (w : World) :
  dom (db (delete_item item_id (get_session w)).2) ⊆ dom (db w).
Proof.
  open_world w. crunch; try done. all: rewrite dom_delete_L; apply subseteq_difference_l; done.
Qed.

Lemma reads_keep_table (item_id : Z) (w : World) :
  db (get_items (get_session w)).2 = db w
  ∧ db (get_item_by_id item_id (get_session w)).2 = db w.
Proof. open_world w. split; crunch; done. Qed.

Lemma no_id_given_keeps_ids (c : Call) (w : World) :
  no_id_given c = true → dom (db (repo_call c w).2) ⊆ dom (db w).
Proof.
  destruct c as [[| item_id item_data | item_id] | | item_id]; simpl;
    intros Hc; try done; rewrite void_db.
  - apply bool_decide_eq_true in Hc.
    pose proof (update_without_id item_id item_data w Hc) as Hupd.
    destruct (update_item item_id item_data (get_session w)) as [res w'].
    destruct Hupd as [Hdom _]. simpl. by rewrite Hdom.
  - apply delete_item_ids.
  - by rewrite (proj1 (reads_keep_table 0 w)).
  - by rewrite (proj2 (reads_keep_table item_id w)).
Qed.

(** C2, as the code has it.  Over any sequence of repository calls in which
    nothing is created and no update payload has an entry for [id], no new
    id appears in the table: only a create brings an id into existence,
    and no row moves to another id.  And an update whose payload has no
    entry for [id] returns the item under the id it was asked for, the ids
    of the table being the same before and after, whatever the outcome. *)
Theorem id_is_kept_without_id_entry (cs : list Call) (item_id : Z)
    (item_data : list (string * pyval)) (w : World) :
  (forallb no_id_given cs = true → dom (db (run_calls cs w)) ⊆ dom (db w))
  ∧ (dict_get item_data "id" = None →
     let '(res, w') := update_item item_id item_data (get_session w) in
     dom (db w') = dom (db w)
     ∧ ∀ r, res = Return (Some r) →
            ∃ n', objects w' !! r = Some (loaded item_id n')
                  ∧ db w' !! item_id = Some n').
Proof.
  split; [|apply update_without_id].
  revert w. induction cs as [|c cs IH]; intros w Hcs; [done|].
  simpl in Hcs. apply andb_true_iff in Hcs as [Hc Hcs]. simpl.
  etrans; [by apply IH|]. by apply no_id_given_keeps_ids.
Qed.

Lemma id_is_kept_without_id_entry_witness :
  let w := world_of healthy [(1, "Old"); (2, "Other")] in
  let cs := [CallWrite (OpUpdate 1 [("name", PStr "New")]); CallList;
             CallWrite (OpDelete 2); CallGet 1] in
  dom (db (run_calls cs w)) ⊆ dom (db w)
  ∧ let '(res, w') := update_item 1 [("name", PStr "New")] (get_session w) in
    dom (db w') = dom (db w)
    ∧ ∀ r, res = Return (Some r) →
           ∃ n', objects w' !! r = Some (loaded 1 n') ∧ db w' !! 1 = Some n'.
Proof.
  split.
  - apply (proj1 (id_is_kept_without_id_entry
             [CallWrite (OpUpdate 1 [("name", PStr "New")]); CallList;
              CallWrite (OpDelete 2); CallGet 1]
             1 [("name", PStr "New")]
             (world_of healthy [(1, "Old"); (2, "Other")]))).
    reflexivity.
  - apply (proj2 (id_is_kept_without_id_entry [] 1 [("name", PStr "New")]
             (world_of healthy [(1, "Old"); (2, "Other")]))).
    reflexivity.
Defined.

(** C2, as stated, fails: [id] is a field like any other to the update
    loop.  A payload that names it moves the row to the new id. *)
Lemma update_can_change_id :
  let w := world_of healthy [(1, "Widget")] in
  let '(res, w') := update_item 1 [("id", PInt 2)] (get_session w) in
  res = Return (Some 0%nat)
  ∧ objects w' !! 0%nat = Some (loaded 2 "Widget")
  ∧ id (loaded 2 "Widget") ≠ PInt 1
  ∧ db w !! 1 = Some "Widget" ∧ db w !! 2 = None
  ∧ db w' !! 1 = None ∧ db w' !! 2 = Some "Widget".
Proof. vm_compute. repeat split. discriminate. Qed.

(** * Further properties of the repository and of the routes *)

(** ** Inversion of the monad *)

Lemma mbind_raise {A B} (m : M A) (f : A → M B) (w w' : World) (e : exc) :
  (m ≫= f) w = (Raise e, w') →
  m w = (Raise e, w') ∨ ∃ a w0, m w = (Return a, w0) ∧ f a w0 = (Raise e, w').
Proof.
  unfold mbind, M_bind. destruct (m w) as [[a|e0] w0] eqn:Hm; intros H.
  - right. by exists a, w0.
  - left. by simplify_eq.
Qed.

Lemma void_raise_intro {A} (m : M A) (w w' : World) (e : exc) :
  m w = (Raise e, w') → void m w = (Raise e, w').
Proof. unfold void, mbind, M_bind. by intros ->. Qed.

Lemma void_return {A} (m : M A) (w w' : World) :
  void m w = (Return tt, w') → ∃ a, m w = (Return a, w').
Proof.
  unfold void, mbind, M_bind, mret, M_ret.
  destruct (m w) as [[a|e] w0]; intros ?; simplify_eq/=. eauto.
Qed.

Lemma void_world {A} (m : M A) (w : World) : (void m w).2 = (m w).2.
Proof.
  unfold void, mbind, M_bind, mret, M_ret. by destruct (m w) as [[a|e] w'].
Qed.

Lemma try_except_return {A} (body : M A) (handler : exc → M A)
    (w w' : World) (a : A) :
  try_except body handler w = (Return a, w') →
  body w = (Return a, w')
  ∨ ∃ e0 w1, body w = (Raise e0, w1) ∧ handler e0 w1 = (Return a, w').
Proof.
  unfold try_except. destruct (body w) as [[a0|e0] w1]; eauto.
Qed.

(** A property of the world that the body establishes in every outcome and
    the except clauses keep holds after the whole [try]. *)
Lemma try_except_keeps {A} (body : M A) (handler : exc → M A) (w : World)
    (P : World → Prop) :
  (∀ o w1, body w = (o, w1) → P w1) →
  (∀ e0 w1, P w1 → P (handler e0 w1).2) →
  P (try_except body handler w).2.
Proof.
  intros Hbody Hh. unfold try_except.
  destruct (body w) as [[a|e0] w1] eqn:Hrun.
  - by eapply Hbody.
  - apply Hh. by eapply Hbody.
Qed.

(** The except clauses applied to each class of exception. *)
Ltac handler_cases Hh w1 :=
  revert Hh; open_world w1;
  match goal with e0 : exc |- _ => destruct e0 end;
  crunch; intros ?; simplify_eq/=.

Ltac body_keeps Hbody w :=
  revert Hbody; open_world w; crunch; intros ?; simplify_eq/=; eauto.

Ltac faults_off Hok E :=
  pose proof (no_fault_fails E PGet Hok);
  pose proof (no_fault_fails E PAdd Hok);
  pose proof (no_fault_fails E PDelete Hok);
  pose proof (no_fault_fails E PCommit Hok);
  pose proof (no_fault_fails E PRefresh Hok);
  pose proof (no_fault_fails E PExec Hok);
  pose proof (no_fault_fails E PRollback Hok).

(** ** What the repository raises and logs *)

(** X1.  The two reads, in any request: [get_items] and [get_item_by_id]
    never change the table and leave nothing pending; they fail exactly when
    their one storage call fails, and then with [ItemCRUDError] carrying the
    storage's message after the prefix of the except clause that caught it;
    otherwise [get_items] returns as many objects as the table has rows and
    [get_item_by_id] returns the row's object, or None when there is no
    row. *)
Theorem reads_fail_only_with_the_storage (item_id : Z) (w : World) :
  (let '(res, w') := get_items (get_session w) in
   db w' = db w ∧ pending w' = []
   ∧ match fails (engine w) PExec with
     | None => ∃ refs, res = Return refs ∧ length refs = size (db w)
     | Some se =>
         res = Raise (ItemCRUDError
                 ((if isinstance (raised se) CSQLAlchemyError
                   then "Error de base de datos al consultar ítems: "
                   else "Error inesperado al consultar ítems: ")
                  +:+ str (raised se)))
     end)
  ∧ (let '(res, w') := get_item_by_id item_id (get_session w) in
     db w' = db w ∧ pending w' = []
     ∧ match fails (engine w) PGet with
       | None =>
           match db w !! item_id with
           | Some n => ∃ r, res = Return (Some r)
                            ∧ objects w' !! r = Some (loaded item_id n)
           | None => res = Return None
           end
       | Some se =>
           res = Raise (ItemCRUDError
                   ((if isinstance (raised se) CSQLAlchemyError
                     then "Error de base de datos al consultar ítem con ID "
                     else "Error inesperado al consultar ítem con ID ")
                    +:+ pretty item_id +:+ ": " +:+ str (raised se)))
       end).
Proof.
  open_world w. split.
  - destruct (fails E PExec) as [[]|] eqn:Hexec; go; repeat split; eauto.
    eexists. split; [done|]. by rewrite length_seq, table_scan_length.
  - destruct (fails E PGet) as [[]|] eqn:Hget; go; repeat split; eauto.
    destruct (t !! item_id) eqn:Hrow; go; eauto.
Qed.

(** X2.  A write that raises, raises [ItemCRUDError], and then the rollback
    went through, with two exceptions, in which an exception leaves the
    repository as it is, unwrapped: a rollback that fails itself; and, in
    [create_item], the read of [item.name] in the except clause when it
    fails.  That read goes to the storage when the object is expired, which
    it is after a commit that went through, so when the [session.refresh]
    after the commit was what failed. *)
Theorem writes_raise_crud_error_or_rollback_failure (op : WriteOp)
    (w w' : World) (e : exc) :
  write_call op w = (Raise e, w') →
  (∃ m, e = ItemCRUDError m ∧ fails (engine w) PRollback = None)
  ∨ (∃ se, fails (engine w) PRollback = Some se ∧ e = raised se)
  ∨ (∃ item_id item_name se,
       op = OpCreate item_id item_name
       ∧ fails (engine w) PRollback = None
       ∧ fails (engine w) PCommit = None
       ∧ is_Some (fails (engine w) PRefresh)
       ∧ load_fails (engine w) = Some se
       ∧ e = raised se).
Proof.
  intros H. destruct op; unfold write_call in H; apply void_raise in H.
  - unfold mbind, M_bind, alloc in H. simpl in H. unfold create_item in H.
    apply try_except_raise in H as (e0 & w1 & Hbody & Hh).
    assert (engine w1 = engine w
            ∧ ∃ it, objects w1 = [it]
                ∧ (expired it = true →
                   fails (engine w) PCommit = None
                   ∧ is_Some (fails (engine w) PRefresh)
                   ∧ ∃ k, sa_key it = Some k ∧ is_Some (db w1 !! k)))
      as [HE (it & Hit & Hexp)].
    { revert Hbody. open_world w. crunch; intros ?; simplify_eq/=.
      all: split; [done|]; eexists; split; [done|]; simpl; intros ?;
        first [ discriminate
              | split; [done|]; split; [by eauto|]; eexists; split; [done|];
                rewrite lookup_insert_eq; by eauto ]. }
    rewrite <- HE in *. clear Hbody HE.
    revert Hh Hexp. open_world w1. subst os.
    destruct e0; crunch; intros ? Hexp; simplify_eq/=.
    all: try (destruct (Hexp eq_refl) as (? & ? & ? & ? & ?);
              simplify_eq/=).
    all: first [ left; by eauto
               | right; left; eexists; split; reflexivity
               | right; right; eexists _, _, _; by eauto 10
               | by destruct (Hexp eq_refl) as (_ & _ & ? & ? & [? ?]);
                   simplify_eq/= ].
  - unfold update_item in H.
    apply try_except_raise in H as (e0 & w1 & Hbody & Hh).
    assert (engine w1 = engine w) as HE by (body_keeps Hbody w).
    rewrite <- HE. clear Hbody HE.
    revert Hh. open_world w1.
    destruct e0; crunch; intros ?; simplify_eq/=;
      first [ left; by eauto | right; left; eexists; split; reflexivity ].
  - unfold delete_item in H.
    apply try_except_raise in H as (e0 & w1 & Hbody & Hh).
    assert (engine w1 = engine w) as HE by (body_keeps Hbody w).
    rewrite <- HE. clear Hbody HE.
    revert Hh. open_world w1.
    destruct e0; crunch; intros ?; simplify_eq/=;
      first [ left; by eauto | right; left; eexists; split; reflexivity ].
Qed.

(** A delete whose commit fails and whose rollback fails as well. *)
Lemma writes_raise_crud_error_or_rollback_failure_witness :
  let w := world_of (faulty [(PCommit, SaError "disk I/O error");
                             (PRollback, PyError "connection closed")])
                    [(1, "Widget")] in
  (∃ m, OtherException "connection closed" = ItemCRUDError m
        ∧ fails (engine w) PRollback = None)
  ∨ (∃ se, fails (engine w) PRollback = Some se
           ∧ OtherException "connection closed" = raised se)
  ∨ (∃ item_id item_name se,
       OpDelete 1 = OpCreate item_id item_name
       ∧ fails (engine w) PRollback = None
       ∧ fails (engine w) PCommit = None
       ∧ is_Some (fails (engine w) PRefresh)
       ∧ load_fails (engine w) = Some se
       ∧ OtherException "connection closed" = raised se).
Proof.
  eapply (writes_raise_crud_error_or_rollback_failure (OpDelete 1)
            (world_of (faulty [(PCommit, SaError "disk I/O error");
                               (PRollback, PyError "connection closed")])
                      [(1, "Widget")])).
  vm_compute. reflexivity.
Defined.

(** The second way out, run: the refresh after the commit fails, and so
    does the read of [item.name] in the except clause.  The exception of
    the read leaves [create_item], the route answers 500, and the row is in
    the table. *)
Lemma create_error_can_escape :
  let E := engine_with (fault_of [(PRefresh, SaError "connection lost")])
                       (Some (SaError "connection lost")) in
  let '(res, w1) := write_call (OpCreate PNone (PStr "Widget")) (world_of E []) in
  let '(response, w2) := POST_items PNone (PStr "Widget") (world_of E []) in
  res = Raise (SQLAlchemyError "connection lost")
  ∧ response = mkResponse 500 (JDetail "Error interno del servidor")
  ∧ db w1 !! 1 = Some "Widget".
Proof. vm_compute. repeat split. Qed.

(** X3.  Whenever one of the five repository functions raises
    [ItemCRUDError], the message it carries is the last record of the log,
    at level ERROR. *)
Theorem repository_error_is_logged (q : Request) (w w' : World) (m : string) :
  repository q w = (Raise (ItemCRUDError m), w') →
  ∃ l, log w' = l ++ [(ERROR, m)].
Proof.
  intros H. destruct q; simpl in H; apply void_raise in H.
  - unfold create_item in H. apply try_except_raise in H as (e0 & w1 & _ & Hh).
    handler_cases Hh w1; eauto.
  - unfold get_items in H. apply try_except_raise in H as (e0 & w1 & _ & Hh).
    handler_cases Hh w1; eauto.
  - unfold get_item_by_id in H. apply try_except_raise in H as (e0 & w1 & _ & Hh).
    handler_cases Hh w1; eauto.
  - unfold update_item in H. apply try_except_raise in H as (e0 & w1 & _ & Hh).
    handler_cases Hh w1; eauto.
  - unfold delete_item in H. apply try_except_raise in H as (e0 & w1 & _ & Hh).
    handler_cases Hh w1; eauto.
Qed.

Lemma repository_error_is_logged_witness :
  let w := world_of (failing PExec (SaError "disk I/O error")) [] in
  ∃ l, log (repository ReqReadAll w).2
       = l ++ [(ERROR, "Error de base de datos al consultar ítems: disk I/O error")].
Proof.
  eapply (repository_error_is_logged ReqReadAll
            (world_of (failing PExec (SaError "disk I/O error")) [])).
  vm_compute. reflexivity.
Defined.

Ltac quiet_body Hbody w :=
  revert Hbody; open_world w; crunch; intros ?; simplify_eq/=;
  rewrite <- ?(assoc_L (++)); eexists; (split; [reflexivity|]);
  repeat constructor; done.

(** X4.  A repository call that returns has written no ERROR record: what
    it added to the log is at level INFO or WARNING. *)
Theorem success_logs_no_error (c : Call) (w w' : World) :
  repo_call c w = (Return tt, w') →
  ∃ l, log w' = log w ++ l ∧ Forall (λ r, r.1 ≠ ERROR) l.
Proof.
  intros H.
  destruct c as [[item_id item_name|item_id item_data|item_id]| |item_id];
    simpl in H; apply void_return in H as [a H].
  - unfold mbind, M_bind, alloc in H. simpl in H. unfold create_item in H.
    apply try_except_return in H as [Hbody|(e0 & w1 & _ & Hh)];
      [quiet_body Hbody w | handler_cases Hh w1].
  - unfold update_item in H.
    apply try_except_return in H as [Hbody|(e0 & w1 & _ & Hh)];
      [quiet_body Hbody w | handler_cases Hh w1].
  - unfold delete_item in H.
    apply try_except_return in H as [Hbody|(e0 & w1 & _ & Hh)];
      [quiet_body Hbody w | handler_cases Hh w1].
  - unfold get_items in H.
    apply try_except_return in H as [Hbody|(e0 & w1 & _ & Hh)];
      [quiet_body Hbody w | handler_cases Hh w1].
  - unfold get_item_by_id in H.
    apply try_except_return in H as [Hbody|(e0 & w1 & _ & Hh)];
      [quiet_body Hbody w | handler_cases Hh w1].
Qed.

(** A delete of an id that has no row: one INFO and one WARNING record. *)
Lemma success_logs_no_error_witness :
  let w := world_of healthy [(1, "Widget")] in
  ∃ l, log (repo_call (CallWrite (OpDelete 2)) w).2 = log w ++ l
       ∧ Forall (λ r, r.1 ≠ ERROR) l.
Proof.
  eapply (success_logs_no_error (CallWrite (OpDelete 2))
            (world_of healthy [(1, "Widget")])).
  vm_compute. reflexivity.
Defined.

(** ** The statuses of the routes *)

Lemma repository_never_raises_http (q : Request) (w w' : World) (e : exc) :
  repository q w = (Raise e, w') → isinstance e CHTTPException = false.
Proof.
  intros H. destruct q; simpl in H; apply void_raise in H.
  - unfold create_item in H. apply try_except_raise in H as (e0 & w1 & _ & Hh).
    handler_cases Hh w1; done.
  - unfold get_items in H. apply try_except_raise in H as (e0 & w1 & _ & Hh).
    handler_cases Hh w1; done.
  - unfold get_item_by_id in H. apply try_except_raise in H as (e0 & w1 & _ & Hh).
    handler_cases Hh w1; done.
  - unfold update_item in H. apply try_except_raise in H as (e0 & w1 & _ & Hh).
    handler_cases Hh w1; done.
  - unfold delete_item in H. apply try_except_raise in H as (e0 & w1 & _ & Hh).
    handler_cases Hh w1; done.
Qed.

Ltac translate Hh e0 :=
  revert Hh; destruct e0; try discriminate; crunch; intros ?; simplify_eq/=;
  eauto.

Ltac not_found Hbody Hh a :=
  destruct a; [discriminate|]; unfold raise in Hbody; simplify_eq/=;
  unfold raise in Hh; simplify_eq/=; eauto.

(** Whatever a handler raises is an HTTPException with status 400, 500 or,
    on the routes that carry an id, 404. *)
Lemma handler_raises_http (q : Request) (w w' : World) (e : exc) :
  endpoint q w = (Raise e, w') →
  ∃ d, e = HTTPException 400 d ∨ e = HTTPException 500 d
       ∨ (e = HTTPException 404 d ∧ id_keyed q = true).
Proof.
  intros H. destruct q; simpl in H; try apply void_raise in H.
  - unfold create in H. apply try_except_raise in H as (e0 & w1 & Hbody & Hh).
    apply void_raise_intro in Hbody.
    apply (repository_never_raises_http (ReqCreate item)) in Hbody.
    translate Hh e0.
  - unfold read_all in H. apply try_except_raise in H as (e0 & w1 & Hbody & Hh).
    apply void_raise_intro in Hbody.
    apply (repository_never_raises_http ReqReadAll) in Hbody.
    translate Hh e0.
  - unfold read_one in H. apply try_except_raise in H as (e0 & w1 & Hbody & Hh).
    apply mbind_raise in Hbody as [Hbody|(a & w0 & _ & Hbody)].
    + apply void_raise_intro in Hbody.
      apply (repository_never_raises_http (ReqReadOne item_id)) in Hbody.
      translate Hh e0.
    + not_found Hbody Hh a.
  - unfold update in H. apply try_except_raise in H as (e0 & w1 & Hbody & Hh).
    apply mbind_raise in Hbody as [Hbody|(a & w0 & _ & Hbody)].
    + apply void_raise_intro in Hbody.
      apply (repository_never_raises_http (ReqUpdate item_id item_data)) in Hbody.
      translate Hh e0.
    + not_found Hbody Hh a.
  - unfold delete in H. apply try_except_raise in H as (e0 & w1 & Hbody & Hh).
    apply mbind_raise in Hbody as [Hbody|(a & w0 & _ & Hbody)].
    + apply void_raise_intro in Hbody.
      apply (repository_never_raises_http (ReqDelete item_id)) in Hbody.
      translate Hh e0.
    + not_found Hbody Hh a.
Qed.

Lemma jsonable_item_raises (r : ref) (w w' : World) (e : exc) :
  jsonable_item r w = (Raise e, w') → isinstance e CHTTPException = false.
Proof.
  unfold jsonable_item, mbind, M_bind, deref.
  destruct (objects w !! r); intros ?; simplify_eq/=; done.
Qed.

Lemma jsonable_list_raises (items : list ref) (w w' : World) (e : exc) :
  jsonable_list items w = (Raise e, w') → isinstance e CHTTPException = false.
Proof.
  revert w w'. induction items as [|r items IH]; intros w w'; simpl.
  - intros ?; simplify_eq/=.
  - unfold mbind, M_bind, deref.
    destruct (objects w !! r); [|by intros ?; simplify_eq/=].
    destruct (jsonable_list items w) as [[l|e0] w0] eqn:Hl;
      [by intros ?; simplify_eq/=|].
    intros ?; simplify_eq/=. by eapply IH.
Qed.

Lemma jsonable_items_raises (items : list ref) (w w' : World) (e : exc) :
  jsonable_items items w = (Raise e, w') → isinstance e CHTTPException = false.
Proof.
  unfold jsonable_items. intros H.
  apply mbind_raise in H as [H|(a & w0 & _ & H)];
    [by eapply jsonable_list_raises|].
  by simplify_eq/=.
Qed.

(** The status of a route is the status of the HTTPException the handler
    raised, the success status, or 500. *)
Lemma route_status {A} (success : Z) (handler : M A) (jsonable : A → M Content)
    (allowed : list Z) (w : World) :
  success ∈ allowed → 500 ∈ allowed →
  (∀ w' c d, handler (get_session w) = (Raise (HTTPException c d), w') →
             c ∈ allowed) →
  (∀ a w0 w' e, jsonable a w0 = (Raise e, w') →
                isinstance e CHTTPException = false) →
  status (route success handler jsonable w).1 ∈ allowed.
Proof.
  intros Hs H500 Hh Hj. unfold route.
  destruct ((handler ≫= jsonable) (get_session w)) as [[c|e] w'] eqn:Hrun;
    [done|].
  apply mbind_raise in Hrun as [Hrun|(a & w0 & _ & Hrun)].
  - destruct e; simpl; try done. by eapply Hh.
  - apply Hj in Hrun. destruct e; simpl; done.
Qed.

(** X5.  For every request that reaches its handler (FastAPI has parsed
    the path and the body; what it answers to a request it cannot parse is
    decided before the handler and is not part of this), whatever the
    table and the failures of the storage, POST /items/ answers 201, 400 or
    500, GET /items/ answers 200, 400 or 500, and GET, PUT and DELETE
    /items/{id} answer their success status (200, 200, 204), 400, 404 or
    500: every exception is turned into one of these before it leaves a
    handler, and the two routes without an id never answer 404. *)
Theorem routes_answer_listed_statuses (item_id item_name : pyval) (k : Z)
    (item_data : list (string * pyval)) (w : World) :
  status (POST_items item_id item_name w).1 ∈ [201; 400; 500]
  ∧ status (GET_items w).1 ∈ [200; 400; 500]
  ∧ status (GET_item k w).1 ∈ [200; 400; 404; 500]
  ∧ status (PUT_item k item_data w).1 ∈ [200; 400; 404; 500]
  ∧ status (DELETE_item k w).1 ∈ [204; 400; 404; 500].
Proof.
  repeat split.
  - apply route_status; [set_solver..| |apply jsonable_item_raises].
    intros w' c d H. apply mbind_raise in H as [H|(r & w0 & _ & H)]; [done|].
    apply void_raise_intro in H.
    apply (handler_raises_http (ReqCreate r)) in H as (d' & [H|[H|[H ?]]]);
      simplify_eq/=; set_solver.
  - apply route_status; [set_solver..| |apply jsonable_items_raises].
    intros w' c d H. apply void_raise_intro in H.
    apply (handler_raises_http ReqReadAll) in H as (d' & [H|[H|[H ?]]]);
      simplify_eq/=; set_solver.
  - apply route_status; [set_solver..| |apply jsonable_item_raises].
    intros w' c d H. apply void_raise_intro in H.
    apply (handler_raises_http (ReqReadOne k)) in H as (d' & [H|[H|[H ?]]]);
      simplify_eq/=; set_solver.
  - apply route_status; [set_solver..| |apply jsonable_item_raises].
    intros w' c d H. apply void_raise_intro in H.
    apply (handler_raises_http (ReqUpdate k item_data)) in H
      as (d' & [H|[H|[H ?]]]);
      simplify_eq/=; set_solver.
  - apply route_status; [set_solver..| |by intros].
    intros w' c d H.
    apply (handler_raises_http (ReqDelete k)) in H as (d' & [H|[H|[H ?]]]);
      simplify_eq/=; set_solver.
Qed.

(** ** Ids given by the client *)

(** X6.  A POST whose body names an id that has no row yet is accepted:
    201 with that id, and the row is stored under it. *)
Theorem create_under_free_id_is_accepted (k : Z) (n : string) (w : World) :
  db w !! k = None →
  no_fault (engine w) = true →
  let '(resp, w') := POST_items (PInt k) (PStr n) w in
  resp = mkResponse 201 (JItem (PInt k) (PStr n))
  ∧ db w' = <[k := n]> (db w).
Proof.
  open_world w. intros Hrow Hok. faults_off Hok E. go'. done.
Qed.

Lemma create_under_free_id_is_accepted_witness :
  let '(resp, w') := POST_items (PInt 7) (PStr "Widget")
                       (world_of healthy [(1, "Gadget")]) in
  resp = mkResponse 201 (JItem (PInt 7) (PStr "Widget"))
  ∧ db w' = <[7 := "Widget"]> (db (world_of healthy [(1, "Gadget")])).
Proof.
  apply (create_under_free_id_is_accepted 7 "Widget"
           (world_of healthy [(1, "Gadget")])); reflexivity.
Defined.

(** X7.  A POST whose body names an id that has a row is refused: 400 with
    the integrity message of [create_item], which ends with the text of the
    storage's exception; the table is as before and nothing is pending. *)
Theorem create_under_taken_id_is_refused (k : Z) (n n0 : string) (w : World) :
  db w !! k = Some n0 →
  no_fault (engine w) = true →
  let '(resp, w') := POST_items (PInt k) (PStr n) w in
  resp = mkResponse 400
           (JDetail ("Error de integridad al crear ítem '" +:+ n +:+ "': "
                     +:+ message (engine w) UniqueViolation (db w)
                           (new_item (PInt k) (PStr n))))
  ∧ db w' = db w ∧ pending w' = [].
Proof.
  open_world w. intros Hrow Hok. faults_off Hok E. go'. done.
Qed.

Lemma create_under_taken_id_is_refused_witness :
  let '(resp, w') := POST_items (PInt 1) (PStr "Other")
                       (world_of healthy [(1, "Widget")]) in
  resp = mkResponse 400
           (JDetail ("Error de integridad al crear ítem '" +:+ "Other"
                     +:+ "': UNIQUE constraint failed: item.id"))
  ∧ db w' = db (world_of healthy [(1, "Widget")]) ∧ pending w' = [].
Proof.
  apply (create_under_taken_id_is_refused 1 "Other" "Widget"
           (world_of healthy [(1, "Widget")])); reflexivity.
Defined.

(** X8.  A PUT whose payload gives the item the id of another row, and
    names no attribute of the object other than its fields, is refused:
    400 with the integrity message of [update_item], which ends with the
    text of the storage's exception; both rows are as before and nothing is
    pending. *)
Theorem update_onto_taken_id_is_refused (k k2 : Z) (n n2 n' : string)
    (item_data : list (string * pyval)) (w : World) :
  db w !! k = Some n →
  db w !! k2 = Some n2 →
  k ≠ k2 →
  plain_payload (engine w) item_data = true →
  dict_get item_data "id" = Some (PInt k2) →
  stored_name (engine w) (default (PStr n) (dict_get item_data "name")) = Some n' →
  no_fault (engine w) = true →
  let '(resp, w') := PUT_item k item_data w in
  resp = mkResponse 400
           (JDetail ("Error de integridad al actualizar ítem con ID " +:+ pretty k
                     +:+ ": "
                     +:+ message (engine w) UniqueViolation (db w)
                           (assign_fields (loaded k n) item_data)))
  ∧ db w' = db w ∧ pending w' = [].
Proof.
  open_world w. intros Hrow Hrow2 Hne Hplain Hid Hname Hok. faults_off Hok E.
  go. rewrite (update_fields_plain _ 0%nat (loaded k n)) by done.
  go. rewrite (bind_name_assign _ _ _ _ _ n') by done.
  rewrite assign_fields_sa_key. simpl.
  rewrite (bind_id_assign _ _ _ _ k2) by (by rewrite Hid).
  go. rewrite decide_False by done. go. done.
Qed.

Lemma update_onto_taken_id_is_refused_witness :
  let '(resp, w') := PUT_item 1 [("id", PInt 2)]
                       (world_of healthy [(1, "Widget"); (2, "Gadget")]) in
  resp = mkResponse 400
           (JDetail ("Error de integridad al actualizar ítem con ID " +:+ pretty 1
                     +:+ ": UNIQUE constraint failed: item.id"))
  ∧ db w' = db (world_of healthy [(1, "Widget"); (2, "Gadget")])
  ∧ pending w' = [].
Proof.
  apply (update_onto_taken_id_is_refused 1 2 "Widget" "Gadget" "Widget"
           [("id", PInt 2)] (world_of healthy [(1, "Widget"); (2, "Gadget")]));
    try reflexivity.
  lia.
Defined.

(** ** Creates, then the listing *)

Lemma post_without_id (n : string) (w : World) :
  no_fault (engine w) = true →
  let '(resp, w') := POST_items PNone (PStr n) w in
  resp = mkResponse 201 (JItem (PInt (next_id (engine w) (db w))) (PStr n))
  ∧ db w' = <[next_id (engine w) (db w) := n]> (db w)
  ∧ engine w' = engine w.
Proof.
  open_world w. intros Hok. faults_off Hok E. go'. done.
Qed.

Lemma create_all_size (names : list string) (w : World) :
  no_fault (engine w) = true →
  size (db (create_all names w)) = (size (db w) + length names)%nat
  ∧ engine (create_all names w) = engine w.
Proof.
  revert w. induction names as [|n names IH]; intros w Hok; simpl.
  - split; [lia|done].
  - pose proof (post_without_id n w Hok) as Hpost.
    destruct (POST_items PNone (PStr n) w) as [resp w1].
    destruct Hpost as (_ & Hdb & HE). simpl.
    destruct (IH w1) as [Hsize HE']; [by rewrite HE|].
    rewrite Hsize, HE', Hdb, HE.
    rewrite map_size_insert_None by apply next_id_fresh. split; [lia|done].
Qed.

Lemma get_items_listing (w : World) :
  fails (engine w) PExec = None →
  (GET_items w).1
  = mkResponse 200
      (JItems ((λ it, (id it, name it)) <$> table_scan (engine w) (db w))).
Proof.
  open_world w. intros Hexec. go.
  rewrite (jsonable_list_allocated [] (table_scan E t)) by done. done.
Qed.

(** X9.  After one POST without id per name of a list, with no failing
    storage call, GET /items/ answers 200 with as many items as the table
    had rows plus the length of the list, and their ids are pairwise
    distinct.  From an empty table: N creates, N items, N ids. *)
Theorem listing_after_creates (names : list string) (w : World) :
  no_fault (engine w) = true →
  ∃ items,
    (GET_items (create_all names w)).1 = mkResponse 200 (JItems items)
    ∧ length items = (size (db w) + length names)%nat
    ∧ NoDup (items.*1).
Proof.
  intros Hok. destruct (create_all_size names w Hok) as [Hsize HE].
  eexists. split; [|split].
  - apply get_items_listing. rewrite HE. by apply no_fault_fails.
  - by rewrite length_fmap, table_scan_length.
  - rewrite <- list_fmap_compose.
    change (fst ∘ (λ it : Item, (id it, name it))) with id.
    rewrite table_scan_ids. apply NoDup_fmap_2; [|apply scan_keys_NoDup].
    by intros k1 k2 [= ->].
Qed.

Lemma listing_after_creates_witness :
  ∃ items,
    (GET_items (create_all ["a"; "b"; "c"] (world_of healthy []))).1
    = mkResponse 200 (JItems items)
    ∧ length items = (size (db (world_of healthy [])) + length ["a"; "b"; "c"])%nat
    ∧ NoDup (items.*1).
Proof.
  apply (listing_after_creates ["a"; "b"; "c"] (world_of healthy [])).
  reflexivity.
Defined.

(** ** Updates as the next requests see them *)



Lemma assign_fields_unknown (E : Engine) (item_data : list (string * pyval))
    (it : Item) :
  forallb (λ fv, negb (item_hasattr fv.1 || has_other_attr E fv.1)) item_data
  = true →
  assign_fields it item_data = it ∧ plain_payload E item_data = true.
Proof.
  unfold plain_payload, other_attr.
  induction item_data as [|[f v] d IH]; [done|]. simpl.
  intros [Hf Hd]%andb_true_iff. apply negb_true_iff, orb_false_elim in Hf as [Hf Ho].
  rewrite Hf, Ho. simpl. by apply IH.
Qed.

(** X11.  A PUT whose payload names no attribute of the item object, the
    empty payload included, is not an error: it answers 200 with the item
    as it is, and the table is the same. *)
Theorem update_with_unknown_fields_changes_nothing (k : Z) (n : string)
    (item_data : list (string * pyval)) (w : World) :
  forallb (λ fv, negb (item_hasattr fv.1 || has_other_attr (engine w) fv.1))
          item_data = true →
  db w !! k = Some n →
  no_fault (engine w) = true →
  let '(resp, w') := PUT_item k item_data w in
  resp = mkResponse 200 (JItem (PInt k) (PStr n)) ∧ db w' = db w.
Proof.
  open_world w. intros Hunknown Hrow Hok. faults_off Hok E.
  apply (assign_fields_unknown _ _ (loaded k n)) in Hunknown as [Hsame Hplain].
  go. rewrite (update_fields_plain _ 0%nat (loaded k n)) by done.
  rewrite Hsame.
  repeat (progress (go; rewrite ?decide_True by done)).
  split; [done|]. by apply insert_id.
Qed.

Lemma update_with_unknown_fields_changes_nothing_witness :
  let w := world_of healthy [(1, "Widget")] in
  let '(resp, w') := PUT_item 1 [("colour", PStr "red"); ("size", PInt 3)] w in
  resp = mkResponse 200 (JItem (PInt 1) (PStr "Widget")) ∧ db w' = db w.
Proof.
  apply (update_with_unknown_fields_changes_nothing 1 "Widget"
           [("colour", PStr "red"); ("size", PInt 3)]
           (world_of healthy [(1, "Widget")])); reflexivity.
Defined.

(** ** The rows a write does not address *)

Ltac handler_keeps :=
  let e0 := fresh "e0" in let w1 := fresh "w1" in
  intros e0 w1; open_world w1; destruct e0; crunch; done.

(** X12.  No write touches a row it does not address: whatever the
    payload, the failures of the storage and the outcome, a row other than
    the one an update or a delete was called for, and any row at all for a
    create, is in the table afterwards with the same name. *)
Theorem writes_leave_other_rows (op : WriteOp) (k2 : Z) (n2 : string)
    (w : World) :
  db w !! k2 = Some n2 →
  addressed op ≠ Some k2 →
  db (write_call op w).2 !! k2 = Some n2.
Proof.
  intros Hrow Hother. destruct op; unfold write_call; rewrite void_world.
  - unfold mbind, M_bind, alloc. simpl. unfold create_item.
    apply (try_except_keeps _ _ _ (λ w', db w' !! k2 = Some n2)).
    + intros o w1. open_world w. crunch; intros ?; simplify_eq/=; try done.
      all: rewrite lookup_insert_ne; [done|]; intros <-;
        first [congruence | by rewrite next_id_fresh in Hrow].
    + handler_keeps.
  - unfold update_item.
    apply (try_except_keeps _ _ _ (λ w', db w' !! k2 = Some n2)).
    + intros o w1. open_world w. crunch; intros ?; simplify_eq/=; try done.
      all: rewrite lookup_insert_ne by (intros <-; congruence);
        rewrite ?lookup_delete_ne by congruence; done.
    + handler_keeps.
  - unfold delete_item.
    apply (try_except_keeps _ _ _ (λ w', db w' !! k2 = Some n2)).
    + intros o w1. open_world w. crunch; intros ?; simplify_eq/=; try done.
      all: rewrite lookup_delete_ne; [done|congruence].
    + handler_keeps.
Qed.

(** An update that moves the row 1 to the id 3 leaves the row 2 alone. *)
Lemma writes_leave_other_rows_witness :
  let w := world_of healthy [(1, "Widget"); (2, "Gadget")] in
  db (write_call (OpUpdate 1 [("id", PInt 3); ("name", PStr "New")]) w).2 !! 2
  = Some "Gadget".
Proof.
  apply (writes_leave_other_rows
           (OpUpdate 1 [("id", PInt 3); ("name", PStr "New")]) 2 "Gadget"
           (world_of healthy [(1, "Widget"); (2, "Gadget")])).
  - reflexivity.
  - simpl. discriminate.
Defined.
